(** * Boxed 64-bit integers of the Janet runtime (src/core/inttypes.c)

    A shallow embedding of the abstract types [core/s64] and [core/u64]:
    the conversion layer, the constructors, the division, remainder,
    [mod] and comparison handlers, the dispatch tables, the hash and
    compare functions and the marshal codec, followed by the properties
    of the specification that are settled on this embedding. *)

From Stdlib Require Import ZArith Lia List String Ascii Bool QArith Qabs.
From Stdlib Require Import Strings.Byte DecimalString.
From Stdlib Require Decimal DecimalFacts DecimalPos DecimalZ.
From Stdlib Require Import Floats.SpecFloat.
From Stdlib Require Import Sorting.Permutation.
Import ListNotations.

Local Open Scope string_scope.
Local Open Scope Z_scope.

(** ** Outcomes of a C function of the runtime

    A handler either returns, or leaves through [janet_panic] (a
    non-local exit to the host), or executes an operation whose behaviour
    the C language leaves undefined. *)

Inductive panic : Type :=
| janet_panic (msg : string)
| arity_mismatch (min max got : Z)
| stream_truncated.

Inductive outcome (A : Type) : Type :=
| Returns (a : A)
| Panics (p : panic)
| Undefined.

Arguments Returns {A} a.
Arguments Panics {A} p.
Arguments Undefined {A}.

Definition bind {A B : Type} (c : outcome A) (k : A -> outcome B) : outcome B :=
  match c with
  | Returns a => k a
  | Panics p => Panics p
  | Undefined => Undefined
  end.

Declare Scope outcome_scope.
Delimit Scope outcome_scope with outcome.
Notation "x <- c ;; k" := (bind c (fun x => k))
  (at level 61, c at next level, right associativity) : outcome_scope.
Notation "c ;;; k" := (bind c (fun _ => k))
  (at level 61, right associativity) : outcome_scope.
Local Open Scope outcome_scope.

(** The error taxonomy of the specification, as the panics of the source. *)

Definition InitializationError_s64 : panic := janet_panic "bad s64 initializer".
Definition InitializationError_u64 : panic := janet_panic "bad u64 initializer".
Definition DivideByZero : panic := janet_panic "division by zero".
Definition ArithmeticOverflow : panic := janet_panic "INT64_MIN divided by -1".

(** ** 64-bit integers

    A value of type [int64_t] or [uint64_t] is a [Z] in the range of the
    type; the 8-byte payload of a box is the bit pattern, a [Z] in
    [0, 2^64). *)

Definition INT64_MIN : Z := - 2 ^ 63.
Definition INT64_MAX : Z := 2 ^ 63 - 1.
Definition UINT64_MAX : Z := 2 ^ 64 - 1.

Definition in_int64 (x : Z) : bool := (INT64_MIN <=? x) && (x <=? INT64_MAX).
Definition in_uint64 (x : Z) : bool := (0 <=? x) && (x <=? UINT64_MAX).

(** [*(uint64_t * )p] and [*(int64_t * )p]: the payload read at either type. *)
Definition as_u64 (bits : Z) : Z := bits mod 2 ^ 64.
Definition as_s64 (bits : Z) : Z := (bits + 2 ^ 63) mod 2 ^ 64 - 2 ^ 63.

(** The payload stored by [*box = x]. *)
Definition payload_of (x : Z) : Z := x mod 2 ^ 64.

Definition as_s32 (w : Z) : Z := (w + 2 ^ 31) mod 2 ^ 32 - 2 ^ 31.

(** The two concrete integer types of the macros ([T] and [type]). *)
Inductive inttype : Type := s64 | u64.

Definition in_range (t : inttype) (x : Z) : bool :=
  match t with s64 => in_int64 x | u64 => in_uint64 x end.

Definition read_as (t : inttype) (bits : Z) : Z :=
  match t with s64 => as_s64 bits | u64 => as_u64 bits end.

(** ** Native operators

    Signed arithmetic that leaves the range of [int64_t] is undefined in
    C, as are division and remainder by zero, [INT64_MIN / -1],
    [INT64_MIN % -1] and shifts by a count outside [0, 64); unsigned
    arithmetic wraps. *)

Inductive c_operator : Type :=
| op_add | op_sub | op_mul | op_div | op_rem
| op_and | op_or | op_xor | op_lshift | op_rshift.

Definition checked (t : inttype) (x : Z) : outcome Z :=
  match t with
  | s64 => if in_int64 x then Returns x else Undefined
  | u64 => Returns (x mod 2 ^ 64)
  end.

Definition c_div (t : inttype) (a b : Z) : outcome Z :=
  if b =? 0 then Undefined
  else match t with
       | s64 => if (a =? INT64_MIN) && (b =? -1) then Undefined
                else Returns (Z.quot a b)
       | u64 => Returns (a / b)
       end.

Definition c_rem (t : inttype) (a b : Z) : outcome Z :=
  if b =? 0 then Undefined
  else match t with
       | s64 => if (a =? INT64_MIN) && (b =? -1) then Undefined
                else Returns (Z.rem a b)
       | u64 => Returns (a mod b)
       end.

Definition c_shift_count_ok (b : Z) : bool := (0 <=? b) && (b <? 64).

Definition c_lshift (t : inttype) (a b : Z) : outcome Z :=
  if c_shift_count_ok b then
    match t with
    | s64 => if a <? 0 then Undefined else checked s64 (Z.shiftl a b)
    | u64 => checked u64 (Z.shiftl a b)
    end
  else Undefined.

Definition c_rshift (t : inttype) (a b : Z) : outcome Z :=
  if c_shift_count_ok b then Returns (Z.shiftr a b) else Undefined.

Definition c_binop (t : inttype) (oper : c_operator) (a b : Z) : outcome Z :=
  match oper with
  | op_add => checked t (a + b)
  | op_sub => checked t (a - b)
  | op_mul => checked t (a * b)
  | op_div => c_div t a b
  | op_rem => c_rem t a b
  | op_and => Returns (Z.land a b)
  | op_or => Returns (Z.lor a b)
  | op_xor => Returns (Z.lxor a b)
  | op_lshift => c_lshift t a b
  | op_rshift => c_rshift t a b
  end.

Inductive c_comparison : Type :=
| cmp_lt | cmp_gt | cmp_le | cmp_ge | cmp_eq | cmp_ne.

Definition c_compare (oper : c_comparison) (a b : Z) : bool :=
  match oper with
  | cmp_lt => a <? b
  | cmp_gt => a >? b
  | cmp_le => a <=? b
  | cmp_ge => a >=? b
  | cmp_eq => a =? b
  | cmp_ne => negb (a =? b)
  end.

(** ** Doubles

    The native number of the runtime is an IEEE 754 binary64 value,
    modelled by [spec_float] with precision 53 and maximal exponent 1024. *)

Definition is_double (d : spec_float) : bool := valid_binary 53 1024 d.

Definition MAX_INT_IN_DBL : Z := 9007199254740992.

(** The constant of type [unsigned long long] converted to [double] by
    the usual arithmetic conversions: 2^52 * 2^1. *)
Definition MAX_INT_IN_DBL_double : spec_float :=
  S754_finite false 4503599627370496 1.

Definition fabs (d : spec_float) : spec_float := SFabs d.

(** The integral part of a double, towards zero; none for NaN and the
    infinities. *)
Definition double_trunc (d : spec_float) : option Z :=
  match d with
  | S754_zero _ => Some 0
  | S754_finite s m e =>
      let magnitude := if 0 <=? e then Zpos m * 2 ^ e else Zpos m / 2 ^ (- e) in
      Some (if s then - magnitude else magnitude)
  | S754_infinity _ | S754_nan => None
  end.

(** The casts [(int64_t)dbl] and [(uint64_t)dbl]: defined when the
    integral part is in the range of the target type. *)
Definition cast_double (t : inttype) (d : spec_float) : outcome Z :=
  match double_trunc d with
  | Some z => if in_range t z then Returns z else Undefined
  | None => Undefined
  end.

(** ** Values of the runtime

    janet.h, which declares [Janet], [JanetType], [JanetAbstractType],
    [JanetMethod] and [JanetIntType], is not among the sources. The value
    kinds used by inttypes.c are kept apart and the others are gathered
    under [JanetOther]. An abstract value carries the identity of its type
    descriptor and, for the two integer types, its 8-byte payload. *)

(** Modelled from the spec: the identity of a type descriptor, which the
    source tests by comparing pointers to the descriptors. *)
Inductive abstract_type_id : Type :=
| core_s64
| core_u64
| foreign_type (name : string).

Definition abstract_type_id_eqb (a b : abstract_type_id) : bool :=
  match a, b with
  | core_s64, core_s64 => true
  | core_u64, core_u64 => true
  | foreign_type n, foreign_type m => String.eqb n m
  | _, _ => false
  end.

Definition type_id_of (t : inttype) : abstract_type_id :=
  match t with s64 => core_s64 | u64 => core_u64 end.

(** The C functions of inttypes.c, as the function values that the
    dispatch tables and the registration table hold. *)
Inductive JanetCFunction : Type :=
| fn_s64_new | fn_u64_new
| fn_s64_add | fn_s64_sub | fn_s64_subi | fn_s64_mul
| fn_s64_div | fn_s64_rem | fn_s64_divi | fn_s64_remi
| fn_s64_mod | fn_s64_modi
| fn_s64_and | fn_s64_or | fn_s64_xor | fn_s64_lshift | fn_s64_rshift
| fn_s64_lt | fn_s64_gt | fn_s64_le | fn_s64_ge | fn_s64_eq | fn_s64_ne
| fn_u64_add | fn_u64_sub | fn_u64_subi | fn_u64_mul
| fn_u64_div | fn_u64_mod | fn_u64_divi | fn_u64_modi
| fn_u64_and | fn_u64_or | fn_u64_xor | fn_u64_lshift | fn_u64_rshift
| fn_u64_lt | fn_u64_gt | fn_u64_le | fn_u64_ge | fn_u64_eq | fn_u64_ne.

(** Modelled from the spec: the tagged value of janet.h, by kind. *)
Inductive Janet : Type :=
| JanetNumber (d : spec_float)
| JanetNil
| JanetBoolean (b : bool)
| JanetString (s : string)
| JanetSymbol (s : string)
| JanetKeyword (s : string)
| JanetCFunctionValue (f : JanetCFunction)
| JanetAbstract (at_id : abstract_type_id) (payload : Z)
| JanetOther (kind : nat).

(** Modelled from the spec: the classification enum of janet.h. *)
Inductive JanetIntType : Type :=
| JANET_INT_NONE
| JANET_INT_S64
| JANET_INT_U64.

Definition janet_wrap_boolean (b : bool) : Janet := JanetBoolean b.

(** [janet_wrap_abstract(box)] for a box allocated with
    [janet_abstract(&janet_##type##_type, sizeof(T))] that holds [x]. *)
Definition janet_wrap_abstract (t : inttype) (x : Z) : Janet :=
  JanetAbstract (type_id_of t) (payload_of x).

(** Modelled from the spec: [janet_arity] and [janet_fixarity] are macros
    of janet.h; a count outside the bounds is an arity error, and a
    maximum of -1 stands for no maximum. *)
Definition janet_arity (argc min max : Z) : outcome unit :=
  if (argc <? min) || ((0 <=? max) && (max <? argc))
  then Panics (arity_mismatch min max argc)
  else Returns tt.

Definition janet_fixarity (argc n : Z) : outcome unit :=
  if argc =? n then Returns tt else Panics (arity_mismatch n n argc).

Definition argc_of (argv : list Janet) : Z := Z.of_nat (List.length argv).

(** [argv[i]]; reading past the arguments is undefined. *)
Definition arg (argv : list Janet) (i : nat) : outcome Janet :=
  match nth_error argv i with
  | Some a => Returns a
  | None => Undefined
  end.

(** The scanners of the host (strtod.c) are parameters of the
    development: they either fail or produce a 64-bit integer. *)
Class HostScanner : Type := {
  janet_scan_int64 : string -> option Z;
  janet_scan_uint64 : string -> option Z
}.

(** ** Hash and compare *)

Inductive endianness : Type := LittleEndian | BigEndian.

(** [words[0]] and [words[1]] of the payload seen as [int32_t[2]]. *)
Definition payload_words (order : endianness) (bits : Z) : Z * Z :=
  let low := as_s32 (bits mod 2 ^ 32) in
  let high := as_s32 (bits / 2 ^ 32 mod 2 ^ 32) in
  match order with
  | LittleEndian => (low, high)
  | BigEndian => (high, low)
  end.

Definition janet_int64_hash (order : endianness) (p1 : Z) : Z :=
  let words := payload_words order p1 in
  Z.lxor (fst words) (snd words).

Definition janet_int64_compare (p1 p2 : Z) : Z :=
  let x := as_s64 p1 in
  let y := as_s64 p2 in
  if x =? y then 0 else if x <? y then -1 else 1.

Definition janet_uint64_compare (p1 p2 : Z) : Z :=
  let x := as_u64 p1 in
  let y := as_u64 p2 in
  if x =? y then 0 else if x <? y then -1 else 1.

(** ** Conversion layer *)

Section Conversion.

Context {scanner : HostScanner}.

Definition is_int_type_id (a : abstract_type_id) : bool :=
  abstract_type_id_eqb a core_s64 || abstract_type_id_eqb a core_u64.

Definition janet_unwrap_s64 (x : Janet) : outcome Z :=
  match x with
  | JanetNumber dbl =>
      if SFleb (fabs dbl) MAX_INT_IN_DBL_double
      then cast_double s64 dbl
      else Panics (janet_panic "bad s64 initializer")
  | JanetString str =>
      match janet_scan_int64 str with
      | Some value => Returns (as_s64 value)
      | None => Panics (janet_panic "bad s64 initializer")
      end
  | JanetAbstract at_id abst =>
      if is_int_type_id at_id
      then Returns (as_s64 abst)
      else Panics (janet_panic "bad s64 initializer")
  | _ => Panics (janet_panic "bad s64 initializer")
  end.

Definition janet_unwrap_u64 (x : Janet) : outcome Z :=
  match x with
  | JanetNumber dbl =>
      if SFleb (S754_zero false) dbl && SFleb dbl MAX_INT_IN_DBL_double
      then cast_double u64 dbl
      else Panics (janet_panic "bad u64 initializer")
  | JanetString str =>
      match janet_scan_uint64 str with
      | Some value => Returns (as_u64 value)
      | None => Panics (janet_panic "bad u64 initializer")
      end
  | JanetAbstract at_id abst =>
      if is_int_type_id at_id
      then Returns (as_u64 abst)
      else Panics (janet_panic "bad u64 initializer")
  | _ => Panics (janet_panic "bad u64 initializer")
  end.

(** [janet_unwrap_##type] of the macros. *)
Definition janet_unwrap (t : inttype) (x : Janet) : outcome Z :=
  match t with
  | s64 => janet_unwrap_s64 x
  | u64 => janet_unwrap_u64 x
  end.

Definition janet_is_int (x : Janet) : JanetIntType :=
  match x with
  | JanetAbstract at_id _ =>
      if abstract_type_id_eqb at_id core_s64 then JANET_INT_S64
      else if abstract_type_id_eqb at_id core_u64 then JANET_INT_U64
      else JANET_INT_NONE
  | _ => JANET_INT_NONE
  end.

Definition janet_wrap_s64 (x : Z) : Janet := JanetAbstract core_s64 (payload_of x).

Definition janet_wrap_u64 (x : Z) : Janet := JanetAbstract core_u64 (payload_of x).

(** ** Constructors *)

Definition cfun_it_s64_new (argv : list Janet) : outcome Janet :=
  janet_fixarity (argc_of argv) 1 ;;;
  argv0 <- arg argv 0 ;;
  x <- janet_unwrap_s64 argv0 ;;
  Returns (janet_wrap_s64 x).

Definition cfun_it_u64_new (argv : list Janet) : outcome Janet :=
  janet_fixarity (argc_of argv) 1 ;;;
  argv0 <- arg argv 0 ;;
  x <- janet_unwrap_u64 argv0 ;;
  Returns (janet_wrap_u64 x).

(** ** Arithmetic kernel

    The loop [for (i = 1; i < argc; i++) body] of the n-ary handlers:
    [body] updates the box with the next argument, from left to right. *)

Fixpoint for_each_arg (body : Z -> Janet -> outcome Z) (box : Z)
  (args : list Janet) : outcome Z :=
  match args with
  | [] => Returns box
  | argv_i :: rest =>
      box' <- body box argv_i ;;
      for_each_arg body box' rest
  end.

Definition OPMETHOD_body (t : inttype) (oper : c_operator)
  (box : Z) (argv_i : Janet) : outcome Z :=
  value <- janet_unwrap t argv_i ;;
  c_binop t oper box value.

Definition OPMETHOD (t : inttype) (oper : c_operator)
  (argv : list Janet) : outcome Janet :=
  janet_arity (argc_of argv) 2 (-1) ;;;
  argv0 <- arg argv 0 ;;
  box <- janet_unwrap t argv0 ;;
  box <- for_each_arg (OPMETHOD_body t oper) box (tl argv) ;;
  Returns (janet_wrap_abstract t box).

Definition OPMETHODINVERT (t : inttype) (oper : c_operator)
  (argv : list Janet) : outcome Janet :=
  janet_fixarity (argc_of argv) 2 ;;;
  argv1 <- arg argv 1 ;;
  box <- janet_unwrap t argv1 ;;
  argv0 <- arg argv 0 ;;
  value <- janet_unwrap t argv0 ;;
  box <- c_binop t oper box value ;;
  Returns (janet_wrap_abstract t box).

Definition DIVMETHOD_body (t : inttype) (oper : c_operator)
  (box : Z) (argv_i : Janet) : outcome Z :=
  value <- janet_unwrap t argv_i ;;
  if value =? 0 then Panics (janet_panic "division by zero")
  else c_binop t oper box value.

Definition DIVMETHOD (t : inttype) (oper : c_operator)
  (argv : list Janet) : outcome Janet :=
  janet_arity (argc_of argv) 2 (-1) ;;;
  argv0 <- arg argv 0 ;;
  box <- janet_unwrap t argv0 ;;
  box <- for_each_arg (DIVMETHOD_body t oper) box (tl argv) ;;
  Returns (janet_wrap_abstract t box).

Definition DIVMETHODINVERT (t : inttype) (oper : c_operator)
  (argv : list Janet) : outcome Janet :=
  janet_fixarity (argc_of argv) 2 ;;;
  argv1 <- arg argv 1 ;;
  box <- janet_unwrap t argv1 ;;
  argv0 <- arg argv 0 ;;
  value <- janet_unwrap t argv0 ;;
  if value =? 0 then Panics (janet_panic "division by zero")
  else
    box <- c_binop t oper box value ;;
    Returns (janet_wrap_abstract t box).

Definition DIVMETHOD_SIGNED_body (t : inttype) (oper : c_operator)
  (box : Z) (argv_i : Janet) : outcome Z :=
  value <- janet_unwrap t argv_i ;;
  if value =? 0 then Panics (janet_panic "division by zero")
  else if (value =? -1) && (box =? INT64_MIN)
  then Panics (janet_panic "INT64_MIN divided by -1")
  else c_binop t oper box value.

Definition DIVMETHOD_SIGNED (t : inttype) (oper : c_operator)
  (argv : list Janet) : outcome Janet :=
  janet_arity (argc_of argv) 2 (-1) ;;;
  argv0 <- arg argv 0 ;;
  box <- janet_unwrap t argv0 ;;
  box <- for_each_arg (DIVMETHOD_SIGNED_body t oper) box (tl argv) ;;
  Returns (janet_wrap_abstract t box).

Definition DIVMETHODINVERT_SIGNED (t : inttype) (oper : c_operator)
  (argv : list Janet) : outcome Janet :=
  janet_fixarity (argc_of argv) 2 ;;;
  argv1 <- arg argv 1 ;;
  box <- janet_unwrap t argv1 ;;
  argv0 <- arg argv 0 ;;
  value <- janet_unwrap t argv0 ;;
  if value =? 0 then Panics (janet_panic "division by zero")
  else if (value =? -1) && (box =? INT64_MIN)
  then Panics (janet_panic "INT64_MIN divided by -1")
  else
    box <- c_binop t oper box value ;;
    Returns (janet_wrap_abstract t box).

Definition COMPMETHOD (t : inttype) (oper : c_comparison)
  (argv : list Janet) : outcome Janet :=
  janet_fixarity (argc_of argv) 2 ;;;
  argv0 <- arg argv 0 ;;
  v1 <- janet_unwrap t argv0 ;;
  argv1 <- arg argv 1 ;;
  v2 <- janet_unwrap t argv1 ;;
  Returns (janet_wrap_boolean (c_compare oper v1 v2)).

(** The sign adjustment shared by [cfun_it_s64_mod] and
    [cfun_it_s64_modi]: [if (x < 0) x = (a < 0) ? x - a : x + a]. *)
Definition mod_adjust (a x : Z) : outcome Z :=
  if x <? 0
  then if a <? 0 then checked s64 (x - a) else checked s64 (x + a)
  else Returns x.

Definition cfun_it_s64_mod_body (box : Z) (argv_i : Janet) : outcome Z :=
  value <- janet_unwrap_s64 argv_i ;;
  if value =? 0 then Panics (janet_panic "division by zero")
  else
    x <- c_rem s64 box value ;;
    mod_adjust box x.

Definition cfun_it_s64_mod (argv : list Janet) : outcome Janet :=
  janet_arity (argc_of argv) 2 (-1) ;;;
  argv0 <- arg argv 0 ;;
  box <- janet_unwrap_s64 argv0 ;;
  box <- for_each_arg cfun_it_s64_mod_body box (tl argv) ;;
  Returns (janet_wrap_abstract s64 box).

Definition cfun_it_s64_modi (argv : list Janet) : outcome Janet :=
  janet_fixarity (argc_of argv) 2 ;;;
  argv0 <- arg argv 0 ;;
  op1 <- janet_unwrap_s64 argv0 ;;
  argv1 <- arg argv 1 ;;
  op2 <- janet_unwrap_s64 argv1 ;;
  x <- c_rem s64 op1 op2 ;;
  x <- mod_adjust op1 x ;;
  Returns (janet_wrap_abstract s64 x).

(** The instances of the macros. *)

Definition cfun_it_s64_add := OPMETHOD s64 op_add.
Definition cfun_it_s64_sub := OPMETHOD s64 op_sub.
Definition cfun_it_s64_subi := OPMETHODINVERT s64 op_sub.
Definition cfun_it_s64_mul := OPMETHOD s64 op_mul.
Definition cfun_it_s64_div := DIVMETHOD_SIGNED s64 op_div.
Definition cfun_it_s64_rem := DIVMETHOD_SIGNED s64 op_rem.
Definition cfun_it_s64_divi := DIVMETHODINVERT_SIGNED s64 op_div.
Definition cfun_it_s64_remi := DIVMETHODINVERT_SIGNED s64 op_rem.
Definition cfun_it_s64_and := OPMETHOD s64 op_and.
Definition cfun_it_s64_or := OPMETHOD s64 op_or.
Definition cfun_it_s64_xor := OPMETHOD s64 op_xor.
Definition cfun_it_s64_lshift := OPMETHOD s64 op_lshift.
Definition cfun_it_s64_rshift := OPMETHOD s64 op_rshift.
Definition cfun_it_s64_lt := COMPMETHOD s64 cmp_lt.
Definition cfun_it_s64_gt := COMPMETHOD s64 cmp_gt.
Definition cfun_it_s64_le := COMPMETHOD s64 cmp_le.
Definition cfun_it_s64_ge := COMPMETHOD s64 cmp_ge.
Definition cfun_it_s64_eq := COMPMETHOD s64 cmp_eq.
Definition cfun_it_s64_ne := COMPMETHOD s64 cmp_ne.

Definition cfun_it_u64_add := OPMETHOD u64 op_add.
Definition cfun_it_u64_sub := OPMETHOD u64 op_sub.
Definition cfun_it_u64_subi := OPMETHODINVERT u64 op_sub.
Definition cfun_it_u64_mul := OPMETHOD u64 op_mul.
Definition cfun_it_u64_div := DIVMETHOD u64 op_div.
Definition cfun_it_u64_mod := DIVMETHOD u64 op_rem.
Definition cfun_it_u64_divi := DIVMETHODINVERT u64 op_div.
Definition cfun_it_u64_modi := DIVMETHODINVERT u64 op_rem.
Definition cfun_it_u64_and := OPMETHOD u64 op_and.
Definition cfun_it_u64_or := OPMETHOD u64 op_or.
Definition cfun_it_u64_xor := OPMETHOD u64 op_xor.
Definition cfun_it_u64_lshift := OPMETHOD u64 op_lshift.
Definition cfun_it_u64_rshift := OPMETHOD u64 op_rshift.
Definition cfun_it_u64_lt := COMPMETHOD u64 cmp_lt.
Definition cfun_it_u64_gt := COMPMETHOD u64 cmp_gt.
Definition cfun_it_u64_le := COMPMETHOD u64 cmp_le.
Definition cfun_it_u64_ge := COMPMETHOD u64 cmp_ge.
Definition cfun_it_u64_eq := COMPMETHOD u64 cmp_eq.
Definition cfun_it_u64_ne := COMPMETHOD u64 cmp_ne.

(** The C function behind each function value. *)
Definition call_cfunction (f : JanetCFunction) : list Janet -> outcome Janet :=
  match f with
  | fn_s64_new => cfun_it_s64_new | fn_u64_new => cfun_it_u64_new
  | fn_s64_add => cfun_it_s64_add | fn_s64_sub => cfun_it_s64_sub
  | fn_s64_subi => cfun_it_s64_subi | fn_s64_mul => cfun_it_s64_mul
  | fn_s64_div => cfun_it_s64_div | fn_s64_rem => cfun_it_s64_rem
  | fn_s64_divi => cfun_it_s64_divi | fn_s64_remi => cfun_it_s64_remi
  | fn_s64_mod => cfun_it_s64_mod | fn_s64_modi => cfun_it_s64_modi
  | fn_s64_and => cfun_it_s64_and | fn_s64_or => cfun_it_s64_or
  | fn_s64_xor => cfun_it_s64_xor
  | fn_s64_lshift => cfun_it_s64_lshift | fn_s64_rshift => cfun_it_s64_rshift
  | fn_s64_lt => cfun_it_s64_lt | fn_s64_gt => cfun_it_s64_gt
  | fn_s64_le => cfun_it_s64_le | fn_s64_ge => cfun_it_s64_ge
  | fn_s64_eq => cfun_it_s64_eq | fn_s64_ne => cfun_it_s64_ne
  | fn_u64_add => cfun_it_u64_add | fn_u64_sub => cfun_it_u64_sub
  | fn_u64_subi => cfun_it_u64_subi | fn_u64_mul => cfun_it_u64_mul
  | fn_u64_div => cfun_it_u64_div | fn_u64_mod => cfun_it_u64_mod
  | fn_u64_divi => cfun_it_u64_divi | fn_u64_modi => cfun_it_u64_modi
  | fn_u64_and => cfun_it_u64_and | fn_u64_or => cfun_it_u64_or
  | fn_u64_xor => cfun_it_u64_xor
  | fn_u64_lshift => cfun_it_u64_lshift | fn_u64_rshift => cfun_it_u64_rshift
  | fn_u64_lt => cfun_it_u64_lt | fn_u64_gt => cfun_it_u64_gt
  | fn_u64_le => cfun_it_u64_le | fn_u64_ge => cfun_it_u64_ge
  | fn_u64_eq => cfun_it_u64_eq | fn_u64_ne => cfun_it_u64_ne
  end.

End Conversion.

(** ** Dispatch tables *)

Definition JanetMethod : Type := (string * JanetCFunction)%type.

Definition it_s64_methods : list JanetMethod :=
  [ ("+", fn_s64_add); ("r+", fn_s64_add);
    ("-", fn_s64_sub); ("r-", fn_s64_subi);
    ("*", fn_s64_mul); ("r*", fn_s64_mul);
    ("/", fn_s64_div); ("r/", fn_s64_divi);
    ("mod", fn_s64_mod); ("rmod", fn_s64_modi);
    ("%", fn_s64_rem); ("r%", fn_s64_remi);
    ("<", fn_s64_lt); (">", fn_s64_gt);
    ("<=", fn_s64_le); (">=", fn_s64_ge);
    ("=", fn_s64_eq); ("!=", fn_s64_ne);
    ("&", fn_s64_and); ("r&", fn_s64_and);
    ("|", fn_s64_or); ("r|", fn_s64_or);
    ("^", fn_s64_xor); ("r^", fn_s64_xor);
    ("<<", fn_s64_lshift); (">>", fn_s64_rshift) ].

Definition it_u64_methods : list JanetMethod :=
  [ ("+", fn_u64_add); ("r+", fn_u64_add);
    ("-", fn_u64_sub); ("r-", fn_u64_subi);
    ("*", fn_u64_mul); ("r*", fn_u64_mul);
    ("/", fn_u64_div); ("r/", fn_u64_divi);
    ("mod", fn_u64_mod); ("rmod", fn_u64_modi);
    ("%", fn_u64_mod); ("r%", fn_u64_modi);
    ("<", fn_u64_lt); (">", fn_u64_gt);
    ("<=", fn_u64_le); (">=", fn_u64_ge);
    ("=", fn_u64_eq); ("!=", fn_u64_ne);
    ("&", fn_u64_and); ("r&", fn_u64_and);
    ("|", fn_u64_or); ("r|", fn_u64_or);
    ("^", fn_u64_xor); ("r^", fn_u64_xor);
    ("<<", fn_u64_lshift); (">>", fn_u64_rshift) ].

(** The constructors registered in the environment by
    [janet_lib_inttypes]. *)
Definition it_cfuns : list JanetMethod :=
  [ ("int/s64", fn_s64_new); ("int/u64", fn_u64_new) ].

(** Modelled from the spec: [janet_getmethod] belongs to the host; it
    scans the table for an exact text match and yields the bound handler,
    or declines. *)
Fixpoint janet_getmethod (method : string) (methods : list JanetMethod)
  : option Janet :=
  match methods with
  | [] => None
  | (name, cfun) :: rest =>
      if String.eqb method name then Some (JanetCFunctionValue cfun)
      else janet_getmethod method rest
  end.

Definition it_s64_get (key : Janet) : option Janet :=
  match key with
  | JanetKeyword k => janet_getmethod k it_s64_methods
  | _ => None
  end.

Definition it_u64_get (key : Janet) : option Janet :=
  match key with
  | JanetKeyword k => janet_getmethod k it_u64_methods
  | _ => None
  end.

(** ** Marshal codec

    A boxed integer is handed to the codec as the pointer [p] to its
    payload; the header in front of the payload names its descriptor. *)

Definition abstract_ptr : Type := (abstract_type_id * Z)%type.

(** An element of the host's stream: the envelope of an abstract value,
    whose format is the host's, or one raw byte. *)
Inductive stream_item : Type :=
| Envelope (at_id : abstract_type_id)
| Raw (b : byte).

Record JanetMarshalContext : Type := {
  ctx_order : endianness;
  ctx_at : abstract_type_id;
  ctx_data : list stream_item
}.

Definition with_data (ctx : JanetMarshalContext) (data : list stream_item)
  : JanetMarshalContext :=
  {| ctx_order := ctx_order ctx; ctx_at := ctx_at ctx; ctx_data := data |}.

Definition byte_of_Z (z : Z) : byte :=
  match Byte.of_N (Z.to_N (z mod 256)) with
  | Some b => b
  | None => x00
  end.

Definition Z_of_byte (b : byte) : Z := Z.of_N (Byte.to_N b).

Fixpoint le_split (n : nat) (x : Z) : list byte :=
  match n with
  | O => []
  | S n' => byte_of_Z x :: le_split n' (x / 256)
  end.

Fixpoint le_combine (bs : list byte) : Z :=
  match bs with
  | [] => 0
  | b :: rest => Z_of_byte b + 256 * le_combine rest
  end.

Definition int64_bytes (order : endianness) (value : Z) : list byte :=
  let le := le_split 8 (payload_of value) in
  match order with
  | LittleEndian => le
  | BigEndian => rev le
  end.

Definition int64_of_bytes (order : endianness) (bs : list byte) : Z :=
  as_s64 (le_combine (match order with
                      | LittleEndian => bs
                      | BigEndian => rev bs
                      end)).

Fixpoint read_raw (n : nat) (data : list stream_item)
  : option (list byte * list stream_item) :=
  match n with
  | O => Some ([], data)
  | S n' =>
      match data with
      | Raw b :: rest =>
          match read_raw n' rest with
          | Some (bs, rest') => Some (b :: bs, rest')
          | None => None
          end
      | _ => None
      end
  end.

(** Modelled from the spec: [janet_marshal_abstract] (marsh.c) stands for
    the host writing its envelope of the abstract value. *)
Definition janet_marshal_abstract (ctx : JanetMarshalContext) (p : abstract_ptr)
  : JanetMarshalContext :=
  with_data ctx (ctx_data ctx ++ [Envelope (fst p)]).

(** Modelled from the spec: [janet_marshal_int64] (marsh.c) writes exactly
    8 raw bytes, in the byte order of the host. *)
Definition janet_marshal_int64 (ctx : JanetMarshalContext) (value : Z)
  : JanetMarshalContext :=
  with_data ctx (ctx_data ctx ++ map Raw (int64_bytes (ctx_order ctx) value)).

(** Modelled from the spec: [janet_unmarshal_abstract] (marsh.c) allocates
    a fresh cell tagged with the descriptor whose routine the host
    invoked. *)
Definition janet_unmarshal_abstract (ctx : JanetMarshalContext) (size : Z)
  : abstract_ptr :=
  (ctx_at ctx, 0).

(** Modelled from the spec: [janet_unmarshal_int64] (marsh.c) copies
    exactly 8 bytes from the input and fails when fewer remain. *)
Definition janet_unmarshal_int64 (ctx : JanetMarshalContext)
  : outcome (Z * JanetMarshalContext) :=
  match read_raw 8 (ctx_data ctx) with
  | Some (bs, rest) => Returns (int64_of_bytes (ctx_order ctx) bs, with_data ctx rest)
  | None => Panics stream_truncated
  end.

Definition int64_marshal (p : abstract_ptr) (ctx : JanetMarshalContext)
  : JanetMarshalContext :=
  let ctx := janet_marshal_abstract ctx p in
  janet_marshal_int64 ctx (as_s64 (snd p)).

Definition int64_unmarshal (ctx : JanetMarshalContext)
  : outcome (abstract_ptr * JanetMarshalContext) :=
  let p := janet_unmarshal_abstract ctx 8 in
  r <- janet_unmarshal_int64 ctx ;;
  Returns ((fst p, payload_of (fst r)), snd r).

(** ** String conversion *)

Definition it_s64_tostring (p : Z) : string :=
  DecimalString.NilZero.string_of_int (Z.to_int (as_s64 p)).

Definition it_u64_tostring (p : Z) : string :=
  DecimalString.NilZero.string_of_int (Z.to_int (as_u64 p)).

(** ** Type descriptors *)

Record JanetAbstractType : Type := {
  at_name : string;
  at_gc : option unit;
  at_gcmark : option unit;
  at_get : option (Janet -> option Janet);
  at_put : option unit;
  at_marshal : option (abstract_ptr -> JanetMarshalContext -> JanetMarshalContext);
  at_unmarshal : option (JanetMarshalContext -> outcome (abstract_ptr * JanetMarshalContext));
  at_tostring : option (Z -> string);
  at_compare : option (Z -> Z -> Z);
  at_hash : option (endianness -> Z -> Z)
}.

Definition janet_s64_type : JanetAbstractType := {|
  at_name := "core/s64";
  at_gc := None;
  at_gcmark := None;
  at_get := Some it_s64_get;
  at_put := None;
  at_marshal := Some int64_marshal;
  at_unmarshal := Some int64_unmarshal;
  at_tostring := Some it_s64_tostring;
  at_compare := Some janet_int64_compare;
  at_hash := Some janet_int64_hash
|}.

Definition janet_u64_type : JanetAbstractType := {|
  at_name := "core/u64";
  at_gc := None;
  at_gcmark := None;
  at_get := Some it_u64_get;
  at_put := None;
  at_marshal := Some int64_marshal;
  at_unmarshal := Some int64_unmarshal;
  at_tostring := Some it_u64_tostring;
  at_compare := Some janet_uint64_compare;
  at_hash := Some janet_int64_hash
|}.

(** The descriptors registered by [janet_lib_inttypes]. *)
Definition registered_type (at_id : abstract_type_id) : option JanetAbstractType :=
  match at_id with
  | core_s64 => Some janet_s64_type
  | core_u64 => Some janet_u64_type
  | foreign_type _ => None
  end.

(** Modelled from the spec: the host's side of the codec. To marshal an
    abstract value it calls the marshal routine of the value's descriptor
    on an empty stream; to unmarshal it reads its envelope and invokes the
    unmarshal routine of the descriptor that the envelope names. What the
    host does with a value or a stream of another kind is left open. *)
Definition host_marshal (order : endianness) (p : abstract_ptr)
  : option (list stream_item) :=
  match registered_type (fst p) with
  | Some descriptor =>
      match at_marshal descriptor with
      | Some marshal =>
          Some (ctx_data (marshal p {| ctx_order := order; ctx_at := fst p; ctx_data := [] |}))
      | None => None
      end
  | None => None
  end.

Definition host_unmarshal (order : endianness) (stream : list stream_item)
  : option (outcome (abstract_ptr * list stream_item)) :=
  match stream with
  | Envelope at_id :: rest =>
      match registered_type at_id with
      | Some descriptor =>
          match at_unmarshal descriptor with
          | Some unmarshal =>
              Some (r <- unmarshal {| ctx_order := order; ctx_at := at_id;
                                      ctx_data := rest |} ;;
                    Returns (fst r, ctx_data (snd r)))
          | None => None
          end
      | None => None
      end
  | _ => None
  end.

(** Modelled from the spec: the host's generic hashing of a container
    key applies the hash function of the value's descriptor to its
    payload. *)
Definition host_hash (order : endianness) (x : Janet) : option Z :=
  match x with
  | JanetAbstract at_id payload =>
      match registered_type at_id with
      | Some descriptor =>
          match at_hash descriptor with
          | Some hash => Some (hash order payload)
          | None => None
          end
      | None => None
      end
  | _ => None
  end.

(** ** A scanner of decimal literals *)

(** Modelled from the spec: text is parsed as a base-10 integer literal
    over the full signed or unsigned 64-bit range, and malformed text
    fails. The decimal scanner instantiates [HostScanner] where a concrete
    host is needed. *)
Definition digit_of_ascii (c : Ascii.ascii) : option Z :=
  let n := Z.of_N (Ascii.N_of_ascii c) in
  if (48 <=? n) && (n <=? 57) then Some (n - 48) else None.

Fixpoint scan_digits (acc : Z) (s : string) : option Z :=
  match s with
  | EmptyString => Some acc
  | String c rest =>
      match digit_of_ascii c with
      | Some d => scan_digits (10 * acc + d) rest
      | None => None
      end
  end.

Definition scan_decimal (s : string) : option Z :=
  match s with
  | EmptyString => None
  | _ => scan_digits 0 s
  end.

Definition decimal_scan_uint64 (s : string) : option Z :=
  match scan_decimal s with
  | Some v => if in_uint64 v then Some v else None
  | None => None
  end.

Definition decimal_scan_int64 (s : string) : option Z :=
  match s with
  | String "-"%char rest =>
      match scan_decimal rest with
      | Some v => if in_int64 (- v) then Some (- v) else None
      | None => None
      end
  | _ =>
      match scan_decimal s with
      | Some v => if in_int64 v then Some v else None
      | None => None
      end
  end.

#[global] Instance decimal_scanner : HostScanner := {|
  janet_scan_int64 := decimal_scan_int64;
  janet_scan_uint64 := decimal_scan_uint64
|}.

(** ** Notions used to state the properties *)

(** The adjustment formula in the words of the specification: the native
    truncating remainder [r], adjusted when it is negative. *)
Definition mod_formula (a v : Z) : Z :=
  let r := Z.rem a v in
  if r <? 0 then (if a <? 0 then r - a else r + a) else r.

(** The outcomes of a computation that may only fail with one of the
    panics [ps]. *)
Definition fails_only_with {A : Type} (ps : list panic) (o : outcome A) : Prop :=
  match o with
  | Returns _ => True
  | Panics p => In p ps
  | Undefined => False
  end.

(** The n-ary division and remainder handlers of a type, each with the
    body of its loop. *)
Definition division_handlers `{HostScanner} (t : inttype)
  : list ((list Janet -> outcome Janet) * (Z -> Janet -> outcome Z)) :=
  match t with
  | s64 => [ (cfun_it_s64_div, DIVMETHOD_SIGNED_body s64 op_div);
             (cfun_it_s64_rem, DIVMETHOD_SIGNED_body s64 op_rem) ]
  | u64 => [ (cfun_it_u64_div, DIVMETHOD_body u64 op_div);
             (cfun_it_u64_mod, DIVMETHOD_body u64 op_rem) ]
  end.

(** The rational value of a double, when it is a number. *)
Definition double_value (d : spec_float) : option Q :=
  match d with
  | S754_zero _ => Some 0%Q
  | S754_finite s m e =>
      let n := if s then Zneg m else Zpos m in
      Some (if 0 <=? e then inject_Z (n * 2 ^ e)
            else Qmake n (Z.to_pos (2 ^ (- e))))
  | S754_infinity _ | S754_nan => None
  end.

(** Truncation of a rational towards zero. *)
Definition Qtrunc (q : Q) : Z := Z.quot (Qnum q) (Zpos (Qden q)).

(** A double is a number of magnitude at most [bound]. *)
Definition double_magnitude_le (d : spec_float) (bound : Q) : Prop :=
  exists q, double_value d = Some q /\ (Qabs q <= bound)%Q.

(** A double is below zero: minus infinity or a negative number. *)
Definition double_negative (d : spec_float) : Prop :=
  d = S754_infinity true \/ exists q, double_value d = Some q /\ (q < 0)%Q.

(** The double -1.0. *)
Definition double_minus_one : spec_float := S754_finite true 4503599627370496 (-52).

(** A value of the runtime is well formed when, if it is a number, that
    number is a binary64 double. *)
Definition valid_janet (x : Janet) : Prop :=
  match x with
  | JanetNumber d => is_double d = true
  | _ => True
  end.

(** The bounds on the operand count that each C function passes to
    [janet_fixarity] or [janet_arity]; a maximum of -1 stands for none. *)
Definition handler_arity (f : JanetCFunction) : Z * Z :=
  match f with
  | fn_s64_new | fn_u64_new => (1, 1)
  | fn_s64_subi | fn_s64_divi | fn_s64_remi | fn_s64_modi
  | fn_u64_subi | fn_u64_divi | fn_u64_modi
  | fn_s64_lt | fn_s64_gt | fn_s64_le | fn_s64_ge | fn_s64_eq | fn_s64_ne
  | fn_u64_lt | fn_u64_gt | fn_u64_le | fn_u64_ge | fn_u64_eq | fn_u64_ne => (2, 2)
  | _ => (2, -1)
  end.

Definition arity_ok (f : JanetCFunction) (argc : Z) : bool :=
  let (min, max) := handler_arity f in
  (min <=? argc) && ((max <? 0) || (argc <=? max)).

(** The operators whose n-ary handler is defined on all operands that
    convert: the bitwise ones on both types and, as unsigned arithmetic
    wraps, addition and multiplication on the unsigned type. Each is given
    with the operation on integers that it folds and the unit of that
    operation. *)
Definition reorderable (t : inttype) (oper : c_operator) : bool :=
  match oper, t with
  | (op_and | op_or | op_xor), _ => true
  | (op_add | op_mul), u64 => true
  | _, _ => false
  end.

Definition folded_operation (oper : c_operator) : (Z -> Z -> Z) * Z :=
  match oper with
  | op_mul => (Z.mul, 1)
  | op_and => (Z.land, -1)
  | op_or => (Z.lor, 0)
  | op_xor => (Z.lxor, 0)
  | _ => (Z.add, 0)
  end.

Definition fold_operands (oper : c_operator) (vs : list Z) : Z :=
  fold_right (fst (folded_operation oper)) (snd (folded_operation oper)) vs.
(** * Properties *)

(** ** Reading and storing payloads *)

Lemma two_64 : 2 ^ 64 = 18446744073709551616.
Proof. reflexivity. Qed.

Lemma two_63 : 2 ^ 63 = 9223372036854775808.
Proof. reflexivity. Qed.

Lemma in_int64_iff (x : Z) :
  in_int64 x = true <-> - 2 ^ 63 <= x <= 2 ^ 63 - 1.
Proof.
  unfold in_int64, INT64_MIN, INT64_MAX.
  rewrite andb_true_iff, !Z.leb_le. reflexivity.
Qed.

Lemma in_uint64_iff (x : Z) :
  in_uint64 x = true <-> 0 <= x <= 2 ^ 64 - 1.
Proof.
  unfold in_uint64, UINT64_MAX.
  rewrite andb_true_iff, !Z.leb_le. reflexivity.
Qed.

Lemma as_s64_range (bits : Z) : - 2 ^ 63 <= as_s64 bits <= 2 ^ 63 - 1.
Proof.
  unfold as_s64.
  pose proof (Z.mod_pos_bound (bits + 2 ^ 63) (2 ^ 64) eq_refl).
  rewrite two_64, two_63 in *. lia.
Qed.

Lemma as_s64_in_int64 (bits : Z) : in_int64 (as_s64 bits) = true.
Proof. apply in_int64_iff, as_s64_range. Qed.

Lemma as_u64_range (bits : Z) : 0 <= as_u64 bits <= 2 ^ 64 - 1.
Proof.
  unfold as_u64.
  pose proof (Z.mod_pos_bound bits (2 ^ 64) eq_refl). lia.
Qed.

Lemma as_u64_in_uint64 (bits : Z) : in_uint64 (as_u64 bits) = true.
Proof. apply in_uint64_iff, as_u64_range. Qed.

Lemma as_u64_small (bits : Z) : 0 <= bits < 2 ^ 64 -> as_u64 bits = bits.
Proof. intros H. unfold as_u64. now apply Z.mod_small. Qed.

Lemma as_s64_small (x : Z) : - 2 ^ 63 <= x <= 2 ^ 63 - 1 -> as_s64 x = x.
Proof.
  intros H. unfold as_s64.
  rewrite Z.mod_small; rewrite ?two_64, ?two_63 in *; lia.
Qed.

(** Reading a stored signed value gives the value back. *)
Lemma as_s64_payload_of (x : Z) :
  - 2 ^ 63 <= x <= 2 ^ 63 - 1 -> as_s64 (payload_of x) = x.
Proof.
  intros H. unfold as_s64, payload_of.
  rewrite Zplus_mod_idemp_l.
  rewrite Z.mod_small; rewrite ?two_64, ?two_63 in *; lia.
Qed.

Lemma as_u64_payload_of (x : Z) : as_u64 (payload_of x) = x mod 2 ^ 64.
Proof. unfold as_u64, payload_of. apply Zmod_mod. Qed.

(** Storing what was read at the signed type restores the payload. *)
Lemma payload_of_as_s64 (bits : Z) : payload_of (as_s64 bits) = bits mod 2 ^ 64.
Proof.
  unfold payload_of, as_s64.
  rewrite Zminus_mod_idemp_l.
  f_equal. lia.
Qed.

Lemma payload_of_as_u64 (bits : Z) : payload_of (as_u64 bits) = bits mod 2 ^ 64.
Proof. unfold payload_of, as_u64. apply Zmod_mod. Qed.

Lemma payload_of_small (bits : Z) : 0 <= bits < 2 ^ 64 -> payload_of bits = bits.
Proof. intros H. unfold payload_of. now apply Z.mod_small. Qed.

(** The two readings of a payload agree modulo 2^64. *)
Lemma as_s64_as_u64 (bits : Z) : as_s64 bits mod 2 ^ 64 = as_u64 bits.
Proof. apply payload_of_as_s64. Qed.

(** ** Conversions always produce a value of the target type *)

Lemma cast_double_in_range (t : inttype) (d : spec_float) (z : Z) :
  cast_double t d = Returns z -> in_range t z = true.
Proof.
  unfold cast_double. destruct (double_trunc d) as [w|]; [|discriminate].
  destruct (in_range t w) eqn:E; [|discriminate].
  intros H. injection H as <-. exact E.
Qed.

Lemma janet_unwrap_s64_in_int64 `{HostScanner} (x : Janet) (v : Z) :
  janet_unwrap_s64 x = Returns v -> - 2 ^ 63 <= v <= 2 ^ 63 - 1.
Proof.
  destruct x; simpl; try discriminate.
  - destruct (SFleb _ _); [|discriminate].
    intros E. apply cast_double_in_range in E. now apply in_int64_iff.
  - destruct (janet_scan_int64 s); [|discriminate].
    intros E. injection E as <-. apply as_s64_range.
  - destruct (is_int_type_id at_id); [|discriminate].
    intros E. injection E as <-. apply as_s64_range.
Qed.

Lemma janet_unwrap_u64_in_uint64 `{HostScanner} (x : Janet) (v : Z) :
  janet_unwrap_u64 x = Returns v -> 0 <= v <= 2 ^ 64 - 1.
Proof.
  destruct x; simpl; try discriminate.
  - destruct (_ && _); [|discriminate].
    intros E. apply cast_double_in_range in E. now apply in_uint64_iff.
  - destruct (janet_scan_uint64 s); [|discriminate].
    intros E. injection E as <-. apply as_u64_range.
  - destruct (is_int_type_id at_id); [|discriminate].
    intros E. injection E as <-. apply as_u64_range.
Qed.

Lemma janet_unwrap_wrap_s64 `{HostScanner} (x : Z) :
  - 2 ^ 63 <= x <= 2 ^ 63 - 1 -> janet_unwrap_s64 (janet_wrap_s64 x) = Returns x.
Proof. intros Hx. simpl. now rewrite as_s64_payload_of. Qed.

(** ** The signed [mod] handlers *)

Lemma c_rem_s64_defined (a v : Z) :
  v <> 0 -> ~ (a = INT64_MIN /\ v = -1) ->
  c_rem s64 a v = Returns (Z.rem a v).
Proof.
  intros Hv Hmin. unfold c_rem.
  destruct (Z.eqb_spec v 0) as [->|_]; [contradiction|].
  destruct (Z.eqb_spec a INT64_MIN) as [Ha|_];
    destruct (Z.eqb_spec v (-1)) as [Hm|_]; simpl; try reflexivity.
  exfalso. apply Hmin. now split.
Qed.

(** A negative truncating remainder comes from a negative dividend, and
    it is no further from zero than the dividend. *)
Lemma rem_negative_bounds (a v : Z) :
  v <> 0 -> Z.rem a v < 0 -> a < 0 /\ a <= Z.rem a v.
Proof.
  intros Hv Hr.
  assert (Ha : a < 0).
  { destruct (Z.lt_ge_cases a 0) as [|Hge]; [assumption|].
    pose proof (Z.rem_nonneg a v Hv Hge). lia. }
  split; [assumption|].
  assert (Habs : Z.abs (Z.rem a v) <= Z.abs a).
  { rewrite <- Z.rem_abs by assumption.
    apply Z.rem_le; lia. }
  lia.
Qed.

Lemma mod_adjust_formula (a v : Z) :
  - 2 ^ 63 <= a <= 2 ^ 63 - 1 -> v <> 0 ->
  mod_adjust a (Z.rem a v) = Returns (mod_formula a v)
  /\ 0 <= mod_formula a v <= 2 ^ 63 - 1.
Proof.
  intros Ha Hv. unfold mod_adjust, mod_formula. cbv zeta.
  destruct (Z.ltb_spec (Z.rem a v) 0) as [Hr|Hr].
  - destruct (rem_negative_bounds a v Hv Hr) as [Hneg Hle].
    destruct (Z.ltb_spec a 0) as [_|Hge]; [|lia].
    assert (Hin : in_int64 (Z.rem a v - a) = true) by (apply in_int64_iff; lia).
    simpl. rewrite Hin. split; [reflexivity|lia].
  - split; [reflexivity|]. split; [assumption|].
    assert (Habs : Z.abs (Z.rem a v) <= Z.abs a).
    { rewrite <- Z.rem_abs by assumption. apply Z.rem_le; lia. }
    destruct (Z.lt_ge_cases a 0) as [Hneg|Hpos]; [|lia].
    pose proof (Z.rem_nonpos a v Hv (Z.lt_le_incl _ _ Hneg)). lia.
Qed.

Lemma cfun_it_s64_mod_body_formula `{HostScanner} (box v : Z) (argv_i : Janet) :
  - 2 ^ 63 <= box <= 2 ^ 63 - 1 ->
  janet_unwrap_s64 argv_i = Returns v ->
  v <> 0 -> ~ (box = INT64_MIN /\ v = -1) ->
  cfun_it_s64_mod_body box argv_i = Returns (mod_formula box v).
Proof.
  intros Hbox Hu Hv Hmin. unfold cfun_it_s64_mod_body.
  rewrite Hu. simpl.
  destruct (Z.eqb_spec v 0) as [->|_]; [contradiction|].
  rewrite c_rem_s64_defined by assumption. simpl.
  now apply mod_adjust_formula.
Qed.

(** The forward handler rejects a zero divisor before any remainder is
    taken. *)
Lemma cfun_it_s64_mod_body_zero `{HostScanner} (box : Z) (argv_i : Janet) :
  janet_unwrap_s64 argv_i = Returns 0 ->
  cfun_it_s64_mod_body box argv_i = Panics DivideByZero.
Proof. intros Hu. unfold cfun_it_s64_mod_body. now rewrite Hu. Qed.

(** C1 (as stated, refuted): the two literal cases of the specification
    cannot both hold, because [mod(7, -3)] does not evaluate to 8. *)
Lemma C1_mod_7_m3_is_not_8 :
  ~ (cfun_it_s64_mod [janet_wrap_s64 (-7); janet_wrap_s64 3]
       = Returns (janet_wrap_s64 6)
     /\ cfun_it_s64_mod [janet_wrap_s64 7; janet_wrap_s64 (-3)]
       = Returns (janet_wrap_s64 8)).
Proof. intros [_ H]. vm_compute in H. discriminate H. Qed.

(** C1 (amended): for the signed type's mod operation, [mod(-7, 3)]
    evaluates to 6 and [mod(7, -3)] evaluates to 1: the native remainder
    of 7 by -3 is 1, which is not negative, so no adjustment is made. *)
Theorem C1_mod_literal_cases `{HostScanner} :
  cfun_it_s64_mod [janet_wrap_s64 (-7); janet_wrap_s64 3]
    = Returns (janet_wrap_s64 6)
  /\ cfun_it_s64_mod [janet_wrap_s64 7; janet_wrap_s64 (-3)]
    = Returns (janet_wrap_s64 1).
Proof. split; reflexivity. Qed.

(** C2 (the code departs from the claim): the reverse entry [rmod] takes
    the remainder of its first operand by its second without testing the
    divisor. With divisor zero it runs into the undefined remainder by
    zero instead of failing with DivideByZero; and a zero first operand,
    the divisor under the reversed calling convention, is not rejected
    either. *)
Theorem C2_rmod_zero_divisor_unchecked `{HostScanner} :
  it_s64_get (JanetKeyword "rmod") = Some (JanetCFunctionValue fn_s64_modi)
  /\ call_cfunction fn_s64_modi = cfun_it_s64_modi
  /\ cfun_it_s64_modi [janet_wrap_s64 7; janet_wrap_s64 0] = Undefined
  /\ cfun_it_s64_modi [janet_wrap_s64 0; janet_wrap_s64 7]
     = Returns (janet_wrap_s64 0)
  /\ cfun_it_s64_divi [janet_wrap_s64 0; janet_wrap_s64 7]
     = Panics DivideByZero.
Proof. repeat split; reflexivity. Qed.

(** Away from a zero divisor and from the pair [(INT64_MIN, -1)], each
    step of the forward fold returns the value of the formula, which lies
    in [0, 2^63), and so does the forward entry on two operands. *)
Lemma cfun_it_s64_mod_formula `{HostScanner} (ja jv : Janet) (a v : Z) :
  janet_unwrap_s64 ja = Returns a ->
  janet_unwrap_s64 jv = Returns v ->
  v <> 0 ->
  ~ (a = INT64_MIN /\ v = -1) ->
  cfun_it_s64_mod_body a jv = Returns (mod_formula a v)
  /\ cfun_it_s64_mod [ja; jv] = Returns (janet_wrap_s64 (mod_formula a v))
  /\ 0 <= mod_formula a v <= 2 ^ 63 - 1.
Proof.
  intros Ha Hv Hnz Hmin.
  pose proof (janet_unwrap_s64_in_int64 _ _ Ha) as Hra.
  pose proof (cfun_it_s64_mod_body_formula a v jv Hra Hv Hnz Hmin) as Hbody.
  split; [exact Hbody|]. split.
  - unfold cfun_it_s64_mod. simpl. rewrite Ha. simpl.
    rewrite Hbody. reflexivity.
  - now apply mod_adjust_formula.
Qed.

(** C3 (the code departs from the claim): with accumulator [INT64_MIN]
    and the nonzero divisor -1, where the formula gives 0, the fold step of
    [cfun_it_s64_mod] takes the native remainder without the guard that
    the [%] handler has for exactly this pair, and runs into the undefined
    [INT64_MIN % -1] instead of returning; so does [cfun_it_s64_modi].
    Besides, [cfun_it_s64_modi] takes its first operand as the accumulator,
    whereas the reverse entries receive the accumulator second: on
    [(3, -7)] it returns 3, not the 6 that the formula gives for
    accumulator -7 and divisor 3 and that the forward entry returns. *)
Theorem C3_mod_unguarded_at_min `{HostScanner} :
  -1 <> 0
  /\ mod_formula INT64_MIN (-1) = 0
  /\ cfun_it_s64_mod_body INT64_MIN (janet_wrap_s64 (-1)) = Undefined
  /\ cfun_it_s64_mod [janet_wrap_s64 INT64_MIN; janet_wrap_s64 (-1)] = Undefined
  /\ cfun_it_s64_modi [janet_wrap_s64 INT64_MIN; janet_wrap_s64 (-1)] = Undefined
  /\ cfun_it_s64_rem [janet_wrap_s64 INT64_MIN; janet_wrap_s64 (-1)]
     = Panics ArithmeticOverflow
  /\ cfun_it_s64_remi [janet_wrap_s64 (-1); janet_wrap_s64 INT64_MIN]
     = Panics ArithmeticOverflow
  /\ mod_formula (-7) 3 = 6
  /\ cfun_it_s64_mod [janet_wrap_s64 (-7); janet_wrap_s64 3]
     = Returns (janet_wrap_s64 6)
  /\ cfun_it_s64_modi [janet_wrap_s64 3; janet_wrap_s64 (-7)]
     = Returns (janet_wrap_s64 3)
  /\ cfun_it_s64_remi [janet_wrap_s64 3; janet_wrap_s64 (-7)]
     = cfun_it_s64_rem [janet_wrap_s64 (-7); janet_wrap_s64 3].
Proof.
  split; [lia|]. repeat split.
Qed.

(** ** Division and remainder *)

Lemma for_each_arg_app (body : Z -> Janet -> outcome Z) (box : Z)
  (pre rest : list Janet) :
  for_each_arg body box (pre ++ rest)
  = (acc <- for_each_arg body box pre ;; for_each_arg body acc rest).
Proof.
  revert box. induction pre as [|x pre IH]; intros box; simpl.
  - reflexivity.
  - destruct (body box x) as [box'| |]; simpl; [apply IH|reflexivity|reflexivity].
Qed.

Lemma argc_of_at_least_two (a0 a1 : Janet) (rest : list Janet) :
  janet_arity (argc_of (a0 :: a1 :: rest)) 2 (-1) = Returns tt.
Proof.
  unfold janet_arity, argc_of.
  assert (H : 2 <= Z.of_nat (List.length (a0 :: a1 :: rest))) by (simpl List.length; lia).
  destruct (Z.ltb_spec (Z.of_nat (List.length (a0 :: a1 :: rest))) 2); [lia|].
  reflexivity.
Qed.

Lemma arity_with_middle (a0 z : Janet) (pre post : list Janet) :
  janet_arity (argc_of (a0 :: pre ++ z :: post)) 2 (-1) = Returns tt.
Proof.
  destruct pre as [|x pre]; simpl app; apply argc_of_at_least_two.
Qed.

(** Both loop bodies stop at a zero divisor. *)
Lemma DIVMETHOD_body_zero `{HostScanner} (t : inttype) (oper : c_operator)
  (box : Z) (z : Janet) :
  janet_unwrap t z = Returns 0 ->
  DIVMETHOD_body t oper box z = Panics DivideByZero.
Proof. intros Hz. unfold DIVMETHOD_body. now rewrite Hz. Qed.

Lemma DIVMETHOD_SIGNED_body_zero `{HostScanner} (t : inttype) (oper : c_operator)
  (box : Z) (z : Janet) :
  janet_unwrap t z = Returns 0 ->
  DIVMETHOD_SIGNED_body t oper box z = Panics DivideByZero.
Proof. intros Hz. unfold DIVMETHOD_SIGNED_body. now rewrite Hz. Qed.

(** A loop that meets an argument on which its body panics reports the
    first failure: that of an earlier step, or else this panic. *)
Lemma for_each_arg_stops (body : Z -> Janet -> outcome Z) (p : panic)
  (box : Z) (pre post : list Janet) (z : Janet) :
  (forall acc, body acc z = Panics p) ->
  for_each_arg body box (pre ++ z :: post)
  = (acc <- for_each_arg body box pre ;; Panics p).
Proof.
  intros Hz. rewrite for_each_arg_app.
  destruct (for_each_arg body box pre) as [acc| |]; simpl; try reflexivity.
  now rewrite Hz.
Qed.

Lemma for_each_arg_fails_only_with (body : Z -> Janet -> outcome Z)
  (ps : list panic) (args : list Janet) :
  Forall (fun x => forall acc, fails_only_with ps (body acc x)) args ->
  forall box, fails_only_with ps (for_each_arg body box args).
Proof.
  induction 1 as [|x args Hx _ IH]; intros box; simpl.
  - exact I.
  - specialize (Hx box). destruct (body box x) as [box'| |]; simpl in *.
    + apply IH.
    + exact Hx.
    + exact Hx.
Qed.

Lemma DIVMETHOD_body_u64_fails_only `{HostScanner} (oper : c_operator)
  (box : Z) (x : Janet) :
  oper = op_div \/ oper = op_rem ->
  (exists v, janet_unwrap u64 x = Returns v) ->
  fails_only_with [DivideByZero] (DIVMETHOD_body u64 oper box x).
Proof.
  intros Hop [v Hv]. unfold DIVMETHOD_body. rewrite Hv. simpl.
  destruct (Z.eqb_spec v 0) as [->|Hnz]; simpl.
  - now left.
  - destruct Hop as [-> | ->]; simpl; unfold c_div, c_rem;
      destruct (Z.eqb_spec v 0); try contradiction; exact I.
Qed.

Lemma DIVMETHOD_SIGNED_body_s64_fails_only `{HostScanner} (oper : c_operator)
  (box : Z) (x : Janet) :
  oper = op_div \/ oper = op_rem ->
  (exists v, janet_unwrap s64 x = Returns v) ->
  fails_only_with [DivideByZero; ArithmeticOverflow]
    (DIVMETHOD_SIGNED_body s64 oper box x).
Proof.
  intros Hop [v Hv]. unfold DIVMETHOD_SIGNED_body. rewrite Hv. simpl.
  destruct (Z.eqb_spec v 0) as [->|Hnz]; simpl.
  - now left.
  - destruct (Z.eqb_spec v (-1)) as [Hm|Hm];
      destruct (Z.eqb_spec box INT64_MIN) as [Hb|Hb]; simpl;
      try (right; left; reflexivity);
      destruct Hop as [-> | ->]; simpl; unfold c_div, c_rem;
      destruct (Z.eqb_spec v 0); try contradiction;
      destruct (Z.eqb_spec box INT64_MIN); try contradiction;
      destruct (Z.eqb_spec v (-1)); try contradiction; exact I.
Qed.

(** The signed guard in front of the native operator. *)
Lemma DIVMETHOD_SIGNED_body_cases `{HostScanner} (oper : c_operator)
  (box v : Z) (jv : Janet) :
  janet_unwrap s64 jv = Returns v ->
  DIVMETHOD_SIGNED_body s64 oper box jv
  = if v =? 0 then Panics DivideByZero
    else if (v =? -1) && (box =? INT64_MIN) then Panics ArithmeticOverflow
    else c_binop s64 oper box v.
Proof. intros Hv. unfold DIVMETHOD_SIGNED_body. now rewrite Hv. Qed.

Lemma guarded_signed_division (oper : c_operator) (box v : Z) :
  oper = op_div \/ oper = op_rem ->
  v <> 0 -> ~ (box = INT64_MIN /\ v = -1) ->
  c_binop s64 oper box v
  = Returns (match oper with op_div => Z.quot box v | _ => Z.rem box v end).
Proof.
  intros Hop Hnz Hmin.
  destruct Hop as [-> | ->]; simpl; unfold c_div, c_rem;
    destruct (Z.eqb_spec v 0); try contradiction;
    destruct (Z.eqb_spec box INT64_MIN) as [Hb|Hb];
    destruct (Z.eqb_spec v (-1)) as [Hm|Hm]; simpl; try reflexivity;
    exfalso; apply Hmin; now split.
Qed.

Lemma overflow_is_not_zero_division : ArithmeticOverflow <> DivideByZero.
Proof. discriminate. Qed.

(** On two operands, a guarded signed handler panics with the overflow
    exactly on [INT64_MIN] and -1, and otherwise returns the native
    result unless the divisor is zero. *)
Lemma signed_step_overflow_iff `{HostScanner} (oper : c_operator)
  (box v : Z) (jv : Janet) :
  oper = op_div \/ oper = op_rem ->
  janet_unwrap s64 jv = Returns v ->
  DIVMETHOD_SIGNED_body s64 oper box jv = Panics ArithmeticOverflow
  <-> box = INT64_MIN /\ v = -1.
Proof.
  intros Hop Hv. rewrite (DIVMETHOD_SIGNED_body_cases oper box v jv Hv).
  destruct (Z.eqb_spec v 0) as [Hz|Hnz].
  - split; [discriminate|]. intros [_ Hm]. lia.
  - destruct (Z.eqb_spec v (-1)) as [Hm|Hm];
      destruct (Z.eqb_spec box INT64_MIN) as [Hb|Hb]; simpl.
    + split; [now split|reflexivity].
    + rewrite guarded_signed_division by tauto.
      split; [discriminate|]. intros [? _]. contradiction.
    + rewrite guarded_signed_division by tauto.
      split; [discriminate|]. intros [_ ?]. contradiction.
    + rewrite guarded_signed_division by tauto.
      split; [discriminate|]. intros [_ ?]. contradiction.
Qed.

Lemma DIVMETHOD_SIGNED_two `{HostScanner} (oper : c_operator)
  (ja jv : Janet) (a : Z) :
  janet_unwrap s64 ja = Returns a ->
  DIVMETHOD_SIGNED s64 oper [ja; jv]
  = (box <- DIVMETHOD_SIGNED_body s64 oper a jv ;;
     Returns (janet_wrap_s64 box)).
Proof.
  intros Ha. unfold DIVMETHOD_SIGNED.
  rewrite argc_of_at_least_two. simpl in *. rewrite Ha. simpl.
  destruct (DIVMETHOD_SIGNED_body s64 oper a jv); reflexivity.
Qed.

Lemma DIVMETHODINVERT_SIGNED_two `{HostScanner} (oper : c_operator)
  (ja jv : Janet) (a v : Z) :
  janet_unwrap s64 ja = Returns a ->
  janet_unwrap s64 jv = Returns v ->
  DIVMETHODINVERT_SIGNED s64 oper [jv; ja]
  = (box <- DIVMETHOD_SIGNED_body s64 oper a jv ;;
     Returns (janet_wrap_s64 box)).
Proof.
  intros Ha Hv. unfold DIVMETHODINVERT_SIGNED, DIVMETHOD_SIGNED_body.
  simpl in *. rewrite Ha, Hv. simpl.
  destruct (v =? 0); [reflexivity|].
  destruct ((v =? -1) && (a =? INT64_MIN)); reflexivity.
Qed.

Lemma bind_panics_iff {A B : Type} (c : outcome A) (k : A -> B) (p : panic) :
  (x <- c ;; Returns (k x)) = Panics p <-> c = Panics p.
Proof.
  destruct c; simpl; split; intros E; try discriminate E;
    injection E as ->; reflexivity.
Qed.

(** C4: signed division and remainder fail with ArithmeticOverflow exactly
    when the accumulator is [INT64_MIN] and the divisor is -1, at every
    step of the fold and in the forward and reverse entries alike; for
    every other accumulator, dividing by -1 returns its opposite and the
    remainder by -1 returns zero. *)
Theorem C4_signed_overflow_guard `{HostScanner} (ja jv : Janet) (a v : Z) :
  janet_unwrap_s64 ja = Returns a ->
  janet_unwrap_s64 jv = Returns v ->
  (DIVMETHOD_SIGNED_body s64 op_div a jv = Panics ArithmeticOverflow
   <-> a = INT64_MIN /\ v = -1)
  /\ (DIVMETHOD_SIGNED_body s64 op_rem a jv = Panics ArithmeticOverflow
      <-> a = INT64_MIN /\ v = -1)
  /\ (cfun_it_s64_div [ja; jv] = Panics ArithmeticOverflow
      <-> a = INT64_MIN /\ v = -1)
  /\ (cfun_it_s64_rem [ja; jv] = Panics ArithmeticOverflow
      <-> a = INT64_MIN /\ v = -1)
  /\ (cfun_it_s64_divi [jv; ja] = Panics ArithmeticOverflow
      <-> a = INT64_MIN /\ v = -1)
  /\ (cfun_it_s64_remi [jv; ja] = Panics ArithmeticOverflow
      <-> a = INT64_MIN /\ v = -1)
  /\ (v = -1 -> a <> INT64_MIN ->
      cfun_it_s64_div [ja; jv] = Returns (janet_wrap_s64 (- a))
      /\ cfun_it_s64_rem [ja; jv] = Returns (janet_wrap_s64 0)
      /\ cfun_it_s64_divi [jv; ja] = Returns (janet_wrap_s64 (- a))
      /\ cfun_it_s64_remi [jv; ja] = Returns (janet_wrap_s64 0)).
Proof.
  intros Ha Hv.
  assert (Hdiv := signed_step_overflow_iff op_div a v jv (or_introl eq_refl) Hv).
  assert (Hrem := signed_step_overflow_iff op_rem a v jv (or_intror eq_refl) Hv).
  unfold cfun_it_s64_div, cfun_it_s64_rem, cfun_it_s64_divi, cfun_it_s64_remi.
  rewrite !(DIVMETHOD_SIGNED_two _ ja jv a Ha).
  rewrite !(DIVMETHODINVERT_SIGNED_two _ ja jv a v Ha Hv).
  rewrite !bind_panics_iff.
  repeat (split; [assumption|]).
  intros -> Hmin.
  assert (Hq : c_binop s64 op_div a (-1) = Returns (- a)).
  { rewrite guarded_signed_division; [|now left|lia|tauto].
    f_equal. change (-1) with (- (1)).
    rewrite Z.quot_opp_r by lia. now rewrite Z.quot_1_r. }
  assert (Hr : c_binop s64 op_rem a (-1) = Returns 0).
  { rewrite guarded_signed_division; [|now right|lia|tauto].
    f_equal. change (-1) with (- (1)).
    rewrite Z.rem_opp_r by lia. now rewrite Z.rem_1_r. }
  rewrite !(DIVMETHOD_SIGNED_body_cases _ a (-1) jv Hv).
  change (-1 =? 0) with false. change (-1 =? -1) with true. cbv iota.
  destruct (Z.eqb_spec a INT64_MIN) as [|_]; [contradiction|].
  cbn [andb]. rewrite Hq, Hr.
  repeat split; reflexivity.
Qed.

Lemma C4_signed_overflow_guard_witness :
  (cfun_it_s64_div [janet_wrap_s64 INT64_MIN; janet_wrap_s64 (-1)]
   = Panics ArithmeticOverflow <-> INT64_MIN = INT64_MIN /\ -1 = -1)
  /\ (cfun_it_s64_rem [janet_wrap_s64 INT64_MIN; janet_wrap_s64 (-1)]
      = Panics ArithmeticOverflow <-> INT64_MIN = INT64_MIN /\ -1 = -1).
Proof.
  pose proof (C4_signed_overflow_guard
                (janet_wrap_s64 INT64_MIN) (janet_wrap_s64 (-1)) INT64_MIN (-1)
                eq_refl eq_refl) as (_ & _ & Hdiv & Hrem & _).
  split; assumption.
Defined.

(** The shape shared by the four handlers: check the arity, seed the box
    with operand 0, run the loop over the others, wrap the box. *)
Lemma division_handlers_shape `{HostScanner} (t : inttype)
  (f : list Janet -> outcome Janet) (body : Z -> Janet -> outcome Z) :
  In (f, body) (division_handlers t) ->
  (forall argv,
     f argv = (janet_arity (argc_of argv) 2 (-1) ;;;
               argv0 <- arg argv 0 ;;
               box <- janet_unwrap t argv0 ;;
               box <- for_each_arg body box (tl argv) ;;
               Returns (janet_wrap_abstract t box)))
  /\ (forall acc z, janet_unwrap t z = Returns 0 -> body acc z = Panics DivideByZero)
  /\ (forall acc x, (exists v, janet_unwrap t x = Returns v) ->
        fails_only_with [DivideByZero; ArithmeticOverflow] (body acc x))
  /\ (t = u64 -> forall acc x, (exists v, janet_unwrap t x = Returns v) ->
        fails_only_with [DivideByZero] (body acc x)).
Proof.
  destruct t; intros Hin; simpl in Hin; destruct Hin as [E|[E|[]]];
    injection E as <- <-.
  - split; [reflexivity|]. split; [apply DIVMETHOD_SIGNED_body_zero|].
    split; [|discriminate].
    intros acc x. apply DIVMETHOD_SIGNED_body_s64_fails_only. now left.
  - split; [reflexivity|]. split; [apply DIVMETHOD_SIGNED_body_zero|].
    split; [|discriminate].
    intros acc x. apply DIVMETHOD_SIGNED_body_s64_fails_only. now right.
  - split; [reflexivity|]. split; [apply DIVMETHOD_body_zero|].
    assert (Hu : forall acc x, (exists v, janet_unwrap u64 x = Returns v) ->
                 fails_only_with [DivideByZero] (DIVMETHOD_body u64 op_div acc x)).
    { intros acc x. apply DIVMETHOD_body_u64_fails_only. now left. }
    split; [|intros _; exact Hu].
    intros acc x Hx. specialize (Hu acc x Hx).
    destruct (DIVMETHOD_body u64 op_div acc x); simpl in *; tauto.
  - split; [reflexivity|]. split; [apply DIVMETHOD_body_zero|].
    assert (Hu : forall acc x, (exists v, janet_unwrap u64 x = Returns v) ->
                 fails_only_with [DivideByZero] (DIVMETHOD_body u64 op_rem acc x)).
    { intros acc x. apply DIVMETHOD_body_u64_fails_only. now right. }
    split; [|intros _; exact Hu].
    intros acc x Hx. specialize (Hu acc x Hx).
    destruct (DIVMETHOD_body u64 op_rem acc x); simpl in *; tauto.
Qed.

(** C5 (as stated, refuted): a zero at position 2 of a signed division
    whose step at position 1 is [INT64_MIN] by -1 is never reached; the
    call fails with ArithmeticOverflow, not with DivideByZero. *)
Lemma C5_zero_behind_overflow :
  janet_unwrap_s64 (janet_wrap_s64 0) = Returns 0
  /\ cfun_it_s64_div [janet_wrap_s64 INT64_MIN; janet_wrap_s64 (-1); janet_wrap_s64 0]
     = Panics ArithmeticOverflow
  /\ cfun_it_s64_div [janet_wrap_s64 INT64_MIN; janet_wrap_s64 (-1); janet_wrap_s64 0]
     <> Panics DivideByZero.
Proof. repeat split. vm_compute. discriminate. Qed.

(** C5 (amended): for every n-ary divide or remainder call, signed or
    unsigned, in which an operand at a position >= 1 converts to zero, the
    call does not return; every operand after the first is checked in the
    left-to-right fold, which stops at its first failing step. The call
    fails with DivideByZero whenever the fold reaches that operand, and,
    when the operands before it all convert, it fails with DivideByZero or,
    for the signed type only, with the ArithmeticOverflow of an earlier
    step. *)
Theorem C5_zero_operand_fails `{HostScanner} (t : inttype)
  (f : list Janet -> outcome Janet) (body : Z -> Janet -> outcome Z)
  (a0 z : Janet) (pre post : list Janet) :
  In (f, body) (division_handlers t) ->
  janet_unwrap t z = Returns 0 ->
  (forall r, f (a0 :: pre ++ z :: post) <> Returns r)
  /\ (forall box acc,
        janet_unwrap t a0 = Returns box ->
        for_each_arg body box pre = Returns acc ->
        f (a0 :: pre ++ z :: post) = Panics DivideByZero)
  /\ (Forall (fun x => exists v, janet_unwrap t x = Returns v) (a0 :: pre) ->
        f (a0 :: pre ++ z :: post) = Panics DivideByZero
        \/ (t = s64 /\ f (a0 :: pre ++ z :: post) = Panics ArithmeticOverflow)).
Proof.
  intros Hin Hz.
  destruct (division_handlers_shape t f body Hin) as (Hf & Hzero & Hsafe & Hsafe_u).
  assert (Hcall : f (a0 :: pre ++ z :: post)
                  = (box <- janet_unwrap t a0 ;;
                     acc <- for_each_arg body box pre ;;
                     Panics DivideByZero)).
  { rewrite Hf, arity_with_middle. simpl.
    destruct (janet_unwrap t a0) as [box| |]; simpl; try reflexivity.
    rewrite (for_each_arg_stops body DivideByZero box pre post z)
      by (intros acc; now apply Hzero).
    destruct (for_each_arg body box pre); reflexivity. }
  rewrite Hcall. split; [|split].
  - intros r. destruct (janet_unwrap t a0) as [box| |]; simpl; try discriminate.
    destruct (for_each_arg body box pre); discriminate.
  - intros box acc Ha Hpre. now rewrite Ha; simpl; rewrite Hpre.
  - intros Hall. inversion Hall as [|x l [box Ha] Hpre]; subst.
    rewrite Ha. simpl.
    destruct t.
    + assert (Hloop : fails_only_with [DivideByZero; ArithmeticOverflow]
                        (for_each_arg body box pre)).
      { apply for_each_arg_fails_only_with.
        eapply Forall_impl; [|exact Hpre]. intros x Hx acc. now apply Hsafe. }
      destruct (for_each_arg body box pre) as [acc|p|]; simpl in *.
      * now left.
      * destruct Hloop as [<-|[<-|[]]]; [now left|right; now split].
      * contradiction.
    + assert (Hloop : fails_only_with [DivideByZero] (for_each_arg body box pre)).
      { apply for_each_arg_fails_only_with.
        eapply Forall_impl; [|exact Hpre]. intros x Hx acc. now apply Hsafe_u. }
      destruct (for_each_arg body box pre) as [acc|p|]; simpl in *.
      * now left.
      * destruct Hloop as [<-|[]]. now left.
      * contradiction.
Qed.

Lemma C5_zero_operand_fails_witness :
  cfun_it_u64_div [janet_wrap_u64 12; janet_wrap_u64 3; janet_wrap_u64 0; janet_wrap_u64 2]
  = Panics DivideByZero.
Proof.
  pose proof (C5_zero_operand_fails u64 cfun_it_u64_div (DIVMETHOD_body u64 op_div)
                (janet_wrap_u64 12) (janet_wrap_u64 0)
                [janet_wrap_u64 3] [janet_wrap_u64 2]
                (or_introl eq_refl) eq_refl) as (_ & Hreach & _).
  exact (Hreach 12 4 eq_refl eq_refl).
Defined.

(** ** Conversion of boxed integers *)

Lemma as_s64_testbit (bits i : Z) :
  0 <= i < 64 -> Z.testbit (as_s64 bits) i = Z.testbit bits i.
Proof.
  intros Hi.
  rewrite <- (Z.mod_pow2_bits_low (as_s64 bits) 64 i) by lia.
  rewrite as_s64_as_u64. unfold as_u64.
  apply Z.mod_pow2_bits_low. lia.
Qed.

Lemma as_s64_cases (bits : Z) :
  0 <= bits < 2 ^ 64 ->
  as_s64 bits = if bits <? 2 ^ 63 then bits else bits - 2 ^ 64.
Proof.
  intros Hb. unfold as_s64. rewrite two_64, two_63 in *.
  destruct (Z.ltb_spec bits 9223372036854775808) as [Hlt|Hge].
  - rewrite Z.mod_small by lia. lia.
  - replace (bits + 9223372036854775808)
      with (bits - 9223372036854775808 + 1 * 18446744073709551616) by lia.
    rewrite Z.mod_add by lia. rewrite Z.mod_small by lia. lia.
Qed.

Lemma is_int_type_id_of (t : inttype) : is_int_type_id (type_id_of t) = true.
Proof. destruct t; reflexivity. Qed.

(** C7: a boxed integer of either signedness converts by reinterpreting
    its 8-byte payload: [to_signed] reads the payload as a two's-complement
    value with the same 64 bits, [to_unsigned] reads the payload itself,
    whatever the tag of the source; so [unsigned(5) < signed(-1)] is true,
    -1 being read as the maximal unsigned value. *)
Theorem C7_boxed_conversion_reinterprets `{HostScanner} (t : inttype) (bits : Z) :
  0 <= bits < 2 ^ 64 ->
  janet_unwrap_s64 (JanetAbstract (type_id_of t) bits) = Returns (as_s64 bits)
  /\ janet_unwrap_u64 (JanetAbstract (type_id_of t) bits) = Returns bits
  /\ payload_of (as_s64 bits) = bits
  /\ (forall i, 0 <= i < 64 -> Z.testbit (as_s64 bits) i = Z.testbit bits i)
  /\ as_s64 bits = (if bits <? 2 ^ 63 then bits else bits - 2 ^ 64)
  /\ janet_unwrap_u64 (janet_wrap_s64 (-1)) = Returns UINT64_MAX
  /\ cfun_it_u64_lt [janet_wrap_u64 5; janet_wrap_s64 (-1)]
     = Returns (JanetBoolean true).
Proof.
  intros Hb.
  split; [|split; [|split; [|split; [|split; [|split]]]]].
  - simpl. now rewrite is_int_type_id_of.
  - simpl. rewrite is_int_type_id_of. now rewrite as_u64_small.
  - rewrite payload_of_as_s64. now apply Z.mod_small.
  - intros i Hi. now apply as_s64_testbit.
  - now apply as_s64_cases.
  - reflexivity.
  - reflexivity.
Qed.

Lemma C7_boxed_conversion_reinterprets_witness :
  janet_unwrap_s64 (JanetAbstract core_u64 18446744073709551615) = Returns (-1)
  /\ janet_unwrap_u64 (JanetAbstract core_u64 18446744073709551615)
     = Returns 18446744073709551615.
Proof.
  assert (Hrange : 0 <= 18446744073709551615 < 2 ^ 64) by (rewrite two_64; lia).
  pose proof (C7_boxed_conversion_reinterprets u64 18446744073709551615 Hrange)
    as (Hs & Hu & _).
  split; [exact Hs|exact Hu].
Defined.

(** ** Hash *)

Lemma two_32 : 2 ^ 32 = 4294967296.
Proof. reflexivity. Qed.

Lemma two_31 : 2 ^ 31 = 2147483648.
Proof. reflexivity. Qed.

Lemma testbit_above_word (w i : Z) :
  0 <= w < 2 ^ 32 -> 32 <= i -> Z.testbit w i = false.
Proof.
  intros Hw Hi. rewrite <- (Z.mod_small w (2 ^ 32)) by assumption.
  apply Z.mod_pow2_bits_high. lia.
Qed.

Lemma testbit_sign_extension (i : Z) :
  0 <= i -> Z.testbit (- 2 ^ 32) i = (32 <=? i).
Proof.
  intros Hi. rewrite Z.bits_opp by assumption.
  rewrite <- Z.ones_equiv.
  destruct (Z.leb_spec 32 i) as [Hge|Hlt].
  - rewrite Z.ones_spec_high by lia. reflexivity.
  - rewrite Z.ones_spec_low by lia. reflexivity.
Qed.

Lemma land_word_sign_extension (w : Z) :
  0 <= w < 2 ^ 32 -> Z.land w (- 2 ^ 32) = 0.
Proof.
  intros Hw. apply Z.bits_inj'. intros i Hi.
  rewrite Z.land_spec, Z.bits_0, testbit_sign_extension by assumption.
  destruct (Z.leb_spec 32 i) as [Hge|Hlt].
  - rewrite testbit_above_word by assumption. reflexivity.
  - apply andb_false_r.
Qed.

Lemma sign_bit_of_word (w : Z) :
  0 <= w < 2 ^ 32 -> (2 ^ 31 <=? w) = Z.testbit w 31.
Proof.
  intros Hw.
  pose proof (Z.testbit_spec' w 31 ltac:(lia)) as Hbit.
  pose proof (Z.div_mod w (2 ^ 31) ltac:(rewrite two_31; lia)) as Hdm.
  pose proof (Z.mod_pos_bound w (2 ^ 31) eq_refl) as Hm.
  rewrite two_31, two_32 in *.
  destruct (Z.leb_spec 2147483648 w) as [Hge|Hlt].
  - assert (Hq : w / 2147483648 = 1) by lia.
    rewrite Hq in Hbit. destruct (Z.testbit w 31); [reflexivity|discriminate].
  - assert (Hq : w / 2147483648 = 0) by lia.
    rewrite Hq in Hbit. destruct (Z.testbit w 31); [discriminate|reflexivity].
Qed.

(** The signed reading of a 32-bit word extends its sign bit upwards. *)
Lemma as_s32_sign_extends (w : Z) :
  0 <= w < 2 ^ 32 ->
  as_s32 w = Z.lxor w (if Z.testbit w 31 then - 2 ^ 32 else 0).
Proof.
  intros Hw. rewrite <- sign_bit_of_word by assumption.
  unfold as_s32.
  destruct (Z.leb_spec (2 ^ 31) w) as [Hge|Hlt].
  - rewrite <- Z.add_nocarry_lxor by now apply land_word_sign_extension.
    rewrite two_31, two_32 in *.
    replace (w + 2147483648) with (w - 2147483648 + 1 * 4294967296) by lia.
    rewrite Z.mod_add by lia. rewrite Z.mod_small by lia. lia.
  - rewrite Z.lxor_0_r. rewrite two_31, two_32 in *.
    rewrite Z.mod_small by lia. lia.
Qed.

Lemma lxor_word_range (a b : Z) :
  0 <= a < 2 ^ 32 -> 0 <= b < 2 ^ 32 -> 0 <= Z.lxor a b < 2 ^ 32.
Proof.
  intros Ha Hb.
  assert (E : Z.lxor a b = Z.lxor a b mod 2 ^ 32).
  { apply Z.bits_inj'. intros i Hi.
    destruct (Z.lt_ge_cases i 32) as [Hlt|Hge].
    - now rewrite Z.mod_pow2_bits_low by lia.
    - rewrite Z.mod_pow2_bits_high by lia.
      rewrite Z.lxor_spec, !testbit_above_word by assumption. reflexivity. }
  rewrite E. apply Z.mod_pos_bound. reflexivity.
Qed.

(** XOR of the signed readings is the signed reading of the XOR of the
    words. *)
Lemma as_s32_lxor (a b : Z) :
  0 <= a < 2 ^ 32 -> 0 <= b < 2 ^ 32 ->
  Z.lxor (as_s32 a) (as_s32 b) = as_s32 (Z.lxor a b).
Proof.
  intros Ha Hb.
  rewrite (as_s32_sign_extends a Ha), (as_s32_sign_extends b Hb).
  rewrite (as_s32_sign_extends (Z.lxor a b)) by now apply lxor_word_range.
  rewrite Z.lxor_spec.
  set (s := - 2 ^ 32).
  rewrite Z.lxor_assoc, <- (Z.lxor_assoc _ b), (Z.lxor_comm _ b).
  rewrite Z.lxor_assoc, <- (Z.lxor_assoc a b).
  f_equal.
  destruct (Z.testbit a 31), (Z.testbit b 31); simpl;
    rewrite ?Z.lxor_0_r, ?Z.lxor_0_l, ?Z.lxor_nilpotent; reflexivity.
Qed.

Lemma as_s32_range (w : Z) : - 2 ^ 31 <= as_s32 w <= 2 ^ 31 - 1.
Proof.
  unfold as_s32.
  pose proof (Z.mod_pos_bound (w + 2 ^ 31) (2 ^ 32) eq_refl).
  rewrite two_31, two_32 in *. lia.
Qed.

Lemma janet_int64_hash_words (order : endianness) (bits : Z) :
  janet_int64_hash order bits
  = as_s32 (Z.lxor (bits mod 2 ^ 32) (bits / 2 ^ 32 mod 2 ^ 32)).
Proof.
  assert (Hlow := Z.mod_pos_bound bits (2 ^ 32) eq_refl).
  assert (Hhigh := Z.mod_pos_bound (bits / 2 ^ 32) (2 ^ 32) eq_refl).
  unfold janet_int64_hash, payload_words.
  destruct order; cbn [fst snd].
  - now apply as_s32_lxor.
  - rewrite Z.lxor_comm. now apply as_s32_lxor.
Qed.

(** C8: the hash of a boxed integer is the XOR of the two 32-bit words of
    its payload, read as a 32-bit result; the host obtains it through
    either descriptor, so boxed integers with the same payload hash
    equally whatever their descriptor, and in particular
    [hash(signed(-1)) = hash(unsigned(18446744073709551615))]. *)
Theorem C8_hash_is_xor_of_words (order : endianness) (bits : Z) :
  janet_int64_hash order bits
  = as_s32 (Z.lxor (bits mod 2 ^ 32) (bits / 2 ^ 32 mod 2 ^ 32))
  /\ - 2 ^ 31 <= janet_int64_hash order bits <= 2 ^ 31 - 1
  /\ host_hash order (JanetAbstract core_s64 bits)
     = Some (janet_int64_hash order bits)
  /\ host_hash order (JanetAbstract core_u64 bits)
     = Some (janet_int64_hash order bits)
  /\ host_hash order (janet_wrap_s64 (-1))
     = host_hash order (janet_wrap_u64 18446744073709551615).
Proof.
  split; [apply janet_int64_hash_words|].
  split; [rewrite janet_int64_hash_words; apply as_s32_range|].
  repeat split.
Qed.

(** ** Marshal codec *)

Lemma Z_of_byte_of_Z (z : Z) : Z_of_byte (byte_of_Z z) = z mod 256.
Proof.
  unfold Z_of_byte, byte_of_Z.
  pose proof (Z.mod_pos_bound z 256 eq_refl) as Hm.
  destruct (Byte.of_N (Z.to_N (z mod 256))) as [b|] eqn:E.
  - apply Byte.to_of_N in E. rewrite E. apply Z2N.id. lia.
  - apply Byte.of_N_None_iff in E. lia.
Qed.

Lemma le_split_length (n : nat) (x : Z) : List.length (le_split n x) = n.
Proof.
  revert x. induction n as [|n IH]; intros x; simpl; [reflexivity|].
  now rewrite IH.
Qed.

Lemma le_combine_split (n : nat) (x : Z) :
  le_combine (le_split n x) = x mod 256 ^ Z.of_nat n.
Proof.
  revert x. induction n as [|n IH]; intros x.
  - simpl. now rewrite Z.mod_1_r.
  - cbn [le_split le_combine]. rewrite Z_of_byte_of_Z, IH.
    rewrite Nat2Z.inj_succ, Z.pow_succ_r by lia.
    rewrite Z.rem_mul_r; [reflexivity|lia|].
    apply Z.pow_pos_nonneg; lia.
Qed.

Lemma int64_of_bytes_int64_bytes (order : endianness) (value : Z) :
  int64_of_bytes order (int64_bytes order value) = as_s64 value.
Proof.
  assert (E : le_combine (le_split 8 (payload_of value)) = payload_of value).
  { rewrite le_combine_split. change (256 ^ Z.of_nat 8) with (2 ^ 64).
    unfold payload_of. apply Zmod_mod. }
  unfold int64_of_bytes, int64_bytes.
  destruct order; rewrite ?rev_involutive, E.
  - unfold as_s64, payload_of. now rewrite Zplus_mod_idemp_l.
  - unfold as_s64, payload_of. now rewrite Zplus_mod_idemp_l.
Qed.

Lemma int64_bytes_length (order : endianness) (value : Z) :
  List.length (int64_bytes order value) = 8%nat.
Proof.
  unfold int64_bytes. destruct order; rewrite ?length_rev; apply le_split_length.
Qed.

Lemma read_raw_bytes (bs : list byte) (rest : list stream_item) :
  read_raw (List.length bs) (map Raw bs ++ rest)%list = Some (bs, rest).
Proof.
  induction bs as [|b bs IH]; simpl; [reflexivity|].
  now rewrite IH.
Qed.

(** What [int64_marshal] appends to the stream: the envelope and the 8
    bytes of the payload. *)
Lemma int64_marshal_data (p : abstract_ptr) (ctx : JanetMarshalContext) :
  ctx_data (int64_marshal p ctx)
  = (ctx_data ctx ++ Envelope (fst p)
       :: map Raw (int64_bytes (ctx_order ctx) (as_s64 (snd p))))%list.
Proof.
  unfold int64_marshal, janet_marshal_int64, janet_marshal_abstract. simpl.
  now rewrite <- app_assoc.
Qed.

(** [int64_unmarshal] on the bytes of a payload restores the payload and
    leaves the rest of the stream. *)
Lemma int64_unmarshal_bytes (order : endianness) (at_id : abstract_type_id)
  (x : Z) (rest : list stream_item) :
  0 <= x < 2 ^ 64 ->
  int64_unmarshal {| ctx_order := order; ctx_at := at_id;
                     ctx_data := (map Raw (int64_bytes order (as_s64 x)) ++ rest)%list |}
  = Returns ((at_id, x),
             {| ctx_order := order; ctx_at := at_id; ctx_data := rest |}).
Proof.
  intros Hx.
  pose proof (read_raw_bytes (int64_bytes order (as_s64 x)) rest) as E.
  rewrite int64_bytes_length in E.
  unfold int64_unmarshal, janet_unmarshal_int64, janet_unmarshal_abstract, with_data.
  cbn [ctx_data ctx_order ctx_at]. rewrite E. cbn [bind fst snd].
  rewrite int64_of_bytes_int64_bytes.
  rewrite (as_s64_small (as_s64 x)) by apply as_s64_range.
  rewrite payload_of_as_s64, Z.mod_small by assumption.
  reflexivity.
Qed.

(** Fewer than 8 bytes left in the stream: the read fails. *)
Lemma int64_unmarshal_truncated (order : endianness) (at_id : abstract_type_id)
  (bs : list byte) :
  (List.length bs < 8)%nat ->
  int64_unmarshal {| ctx_order := order; ctx_at := at_id; ctx_data := map Raw bs |}
  = Panics stream_truncated.
Proof.
  intros Hlen. unfold int64_unmarshal, janet_unmarshal_int64. simpl ctx_data.
  assert (E : read_raw 8 (map Raw bs) = None).
  { do 8 (destruct bs as [|? bs]; [reflexivity|]). simpl in Hlen. lia. }
  now rewrite E.
Qed.

(** C6: for every 8-byte payload and for both descriptors, marshalling a
    boxed integer writes the envelope and 8 bytes, and unmarshalling that
    stream yields a boxed integer of the same descriptor whose payload is
    the one that was marshalled, in either byte order. *)
Theorem C6_marshal_roundtrip (order : endianness) (t : inttype) (x : Z) :
  0 <= x < 2 ^ 64 ->
  exists bytes,
    List.length bytes = 8%nat
    /\ host_marshal order (type_id_of t, x)
       = Some (Envelope (type_id_of t) :: map Raw bytes)
    /\ forall rest,
         host_unmarshal order (Envelope (type_id_of t) :: map Raw bytes ++ rest)%list
         = Some (Returns ((type_id_of t, x), rest)).
Proof.
  intros Hx. exists (int64_bytes order (as_s64 x)).
  split; [apply int64_bytes_length|]. split.
  - unfold host_marshal.
    destruct t; cbn [type_id_of fst registered_type at_marshal janet_s64_type janet_u64_type];
      now rewrite int64_marshal_data.
  - intros rest. unfold host_unmarshal.
    destruct t; cbn [type_id_of registered_type at_unmarshal janet_s64_type janet_u64_type];
      now rewrite int64_unmarshal_bytes.
Qed.

Lemma C6_marshal_roundtrip_witness :
  exists bytes,
    List.length bytes = 8%nat
    /\ host_marshal BigEndian (core_s64, 18446744073709551614)
       = Some (Envelope core_s64 :: map Raw bytes)
    /\ forall rest,
         host_unmarshal BigEndian (Envelope core_s64 :: map Raw bytes ++ rest)%list
         = Some (Returns ((core_s64, 18446744073709551614), rest)).
Proof.
  apply (C6_marshal_roundtrip BigEndian s64 18446744073709551614).
  rewrite two_64. lia.
Defined.

(** ** Conversion of doubles *)

Lemma two_53 : 2 ^ 53 = 9007199254740992.
Proof. reflexivity. Qed.

Lemma two_52 : 2 ^ 52 = 4503599627370496.
Proof. reflexivity. Qed.

(** A positive number lies between the powers of two that its number of
    binary digits gives. *)
Lemma digits2_pos_bounds (m : positive) :
  2 ^ (Zpos (digits2_pos m) - 1) <= Zpos m < 2 ^ Zpos (digits2_pos m).
Proof.
  induction m as [p IH|p IH|]; cbn [digits2_pos].
  - rewrite Pos2Z.inj_succ.
    replace (Z.succ (Zpos (digits2_pos p)) - 1)
      with (Z.succ (Zpos (digits2_pos p) - 1)) by lia.
    rewrite !Z.pow_succ_r by lia. lia.
  - rewrite Pos2Z.inj_succ.
    replace (Z.succ (Zpos (digits2_pos p)) - 1)
      with (Z.succ (Zpos (digits2_pos p) - 1)) by lia.
    rewrite !Z.pow_succ_r by lia. lia.
  - simpl. lia.
Qed.

(** The shape of a binary64 number: a 53-bit mantissa, or a shorter one
    at the least exponent. *)
Lemma is_double_finite (s : bool) (m : positive) (e : Z) :
  is_double (S754_finite s m e) = true ->
  Zpos m < 2 ^ 53
  /\ (e = -1074 \/ 2 ^ 52 <= Zpos m).
Proof.
  unfold is_double, valid_binary, bounded, canonical_mantissa, fexp, emin.
  rewrite andb_true_iff, Z.eqb_eq, Z.leb_le. intros [Hc He].
  pose proof (digits2_pos_bounds m) as [Hlow Hhigh].
  assert (Hd : Zpos (digits2_pos m) <= 53) by lia.
  split.
  - apply Z.lt_le_trans with (1 := Hhigh).
    apply Z.pow_le_mono_r; lia.
  - destruct (Z.eq_dec e (-1074)) as [|Hne]; [now left|right].
    assert (Hd53 : Zpos (digits2_pos m) = 53) by lia.
    rewrite Hd53 in Hlow. exact Hlow.
Qed.

(** The magnitude of a finite double, without its sign. *)
Lemma Qabs_double_value (s : bool) (m : positive) (e : Z) (q : Q) :
  double_value (S754_finite s m e) = Some q ->
  Qabs q = (if 0 <=? e then inject_Z (Zpos m * 2 ^ e)
            else Qmake (Zpos m) (Z.to_pos (2 ^ (- e)))).
Proof.
  cbn [double_value]. intros E. injection E as <-.
  destruct (Z.leb_spec 0 e) as [He|He].
  - unfold inject_Z, Qabs. f_equal.
    assert (Hp : 0 <= 2 ^ e) by (apply Z.pow_nonneg; lia).
    destruct s.
    + rewrite <- Pos2Z.opp_pos, Z.mul_opp_l, Z.abs_opp. apply Z.abs_eq. lia.
    + apply Z.abs_eq. lia.
  - destruct s; reflexivity.
Qed.

Lemma magnitude_le_finite (s : bool) (m : positive) (e : Z) :
  double_magnitude_le (S754_finite s m e) (inject_Z (2 ^ 53))
  <-> (if 0 <=? e then Zpos m * 2 ^ e <= 2 ^ 53
       else Zpos m <= 2 ^ 53 * 2 ^ (- e)).
Proof.
  unfold double_magnitude_le.
  assert (Hv : exists q, double_value (S754_finite s m e) = Some q)
    by (cbn [double_value]; eauto).
  destruct Hv as [q Hq].
  pose proof (Qabs_double_value s m e q Hq) as Habs.
  assert (Hiff : (Qabs q <= inject_Z (2 ^ 53))%Q
                 <-> (if 0 <=? e then Zpos m * 2 ^ e <= 2 ^ 53
                      else Zpos m <= 2 ^ 53 * 2 ^ (- e))).
  { rewrite Habs. destruct (Z.leb_spec 0 e) as [He|He].
    - unfold Qle, inject_Z. cbn [Qnum Qden]. rewrite !Z.mul_1_r. reflexivity.
    - unfold Qle, inject_Z. cbn [Qnum Qden].
      rewrite Z2Pos.id by (apply Z.pow_pos_nonneg; lia).
      rewrite Z.mul_1_r. reflexivity. }
  split.
  - intros [q' [Hq' Hle]]. rewrite Hq in Hq'. injection Hq' as <-.
    now apply Hiff.
  - intros Hle. exists q. split; [assumption|]. now apply Hiff.
Qed.

(** Comparison of two positive finite doubles, by exponent and then by
    mantissa. *)
Lemma SFleb_finite_positive (m c : positive) (e k : Z) :
  SFleb (S754_finite false m e) (S754_finite false c k)
  = match e ?= k with
    | Lt => true
    | Gt => false
    | Eq => (Zpos m <=? Zpos c)
    end.
Proof.
  unfold SFleb, SFcompare. destruct (e ?= k); reflexivity.
Qed.

(** The comparison of the source against the constant decides the bound
    on the magnitude. *)
Lemma SFleb_fabs_MAX (d : spec_float) :
  is_double d = true ->
  SFleb (fabs d) MAX_INT_IN_DBL_double = true
  <-> double_magnitude_le d (inject_Z (2 ^ 53)).
Proof.
  intros Hd. destruct d as [s|s| |s m e].
  - split; [|reflexivity]. intros _. exists 0%Q. split; [reflexivity|].
    unfold Qle. simpl. lia.
  - split; [discriminate|]. intros [q [E _]]. discriminate E.
  - split; [discriminate|]. intros [q [E _]]. discriminate E.
  - rewrite magnitude_le_finite.
    destruct (is_double_finite s m e Hd) as [Hlt Hnorm].
    unfold fabs, SFabs, MAX_INT_IN_DBL_double.
    rewrite SFleb_finite_positive.
    rewrite two_53, two_52 in *.
    destruct (Z.compare_spec e 1) as [He|He|He].
    + subst e. change (0 <=? 1) with true. cbv iota.
      change (2 ^ 1) with 2.
      destruct (Z.leb_spec (Zpos m) 4503599627370496) as [Hm|Hm].
      * split; [intros _; lia|reflexivity].
      * split; [discriminate|]. intros Hle. lia.
    + split; [intros _|reflexivity].
      destruct (Z.leb_spec 0 e) as [Hz|Hz].
      * assert (e = 0) by lia. subst e. change (2 ^ 0) with 1. lia.
      * assert (Hp : 1 <= 2 ^ (- e)).
        { change 1 with (2 ^ 0). apply Z.pow_le_mono_r; lia. }
        nia.
    + split; [discriminate|]. intros Hle.
      destruct (Z.leb_spec 0 e) as [Hz|Hz]; [|lia].
      destruct Hnorm as [Hmin|Hnorm]; [lia|].
      assert (Hp : 2 ^ 2 <= 2 ^ e) by (apply Z.pow_le_mono_r; lia).
      change (2 ^ 2) with 4 in Hp. nia.
Qed.

Lemma MAX_INT_IN_DBL_value :
  MAX_INT_IN_DBL = 2 ^ 53
  /\ is_double MAX_INT_IN_DBL_double = true
  /\ double_value MAX_INT_IN_DBL_double = Some (inject_Z MAX_INT_IN_DBL).
Proof. repeat split. Qed.

(** The integral part taken by the cast is the truncation of the value. *)
Lemma double_trunc_value (d : spec_float) (q : Q) :
  double_value d = Some q -> double_trunc d = Some (Qtrunc q).
Proof.
  destruct d as [s|s| |s m e]; cbn [double_value double_trunc];
    try discriminate.
  - intros E. injection E as <-. reflexivity.
  - intros E. injection E as <-. f_equal. unfold Qtrunc.
    destruct (Z.leb_spec 0 e) as [He|He].
    + cbn [inject_Z Qnum Qden]. rewrite Z.quot_1_r.
      destruct s; [|reflexivity].
      now rewrite <- Pos2Z.opp_pos, Z.mul_opp_l.
    + cbn [Qnum Qden].
      assert (Hp : 0 < 2 ^ (- e)) by (apply Z.pow_pos_nonneg; lia).
      rewrite Z2Pos.id by assumption.
      destruct s.
      * rewrite <- Pos2Z.opp_pos, Z.quot_opp_l by lia.
        rewrite Z.quot_div_nonneg by lia. reflexivity.
      * rewrite Z.quot_div_nonneg by lia. reflexivity.
Qed.

(** Truncation does not leave a symmetric integer bound. *)
Lemma Qtrunc_bound (q : Q) (bound : Z) :
  (Qabs q <= inject_Z bound)%Q -> - bound <= Qtrunc q <= bound.
Proof.
  destruct q as [n d]. unfold Qle, Qabs, Qtrunc, inject_Z. cbn [Qnum Qden].
  rewrite Z.mul_1_r. intros Hle.
  assert (Habs : Z.abs (Z.quot n (Zpos d)) <= bound).
  { rewrite <- (Z.quot_abs n (Zpos d)) by lia.
    rewrite Z.quot_div_nonneg by lia.
    change (Z.abs (Zpos d)) with (Zpos d).
    apply Z.div_le_upper_bound; lia. }
  lia.
Qed.

(** The signed conversion of a double: truncation within the bound,
    refusal beyond it. *)
Lemma janet_unwrap_s64_number `{HostScanner} (d : spec_float) :
  is_double d = true ->
  (forall q, double_value d = Some q -> (Qabs q <= inject_Z (2 ^ 53))%Q ->
     janet_unwrap_s64 (JanetNumber d) = Returns (Qtrunc q))
  /\ (~ double_magnitude_le d (inject_Z (2 ^ 53)) ->
      janet_unwrap_s64 (JanetNumber d) = Panics InitializationError_s64).
Proof.
  intros Hd. pose proof (SFleb_fabs_MAX d Hd) as Hcmp.
  cbn [janet_unwrap_s64]. split.
  - intros q Hq Hle.
    assert (Hmag : double_magnitude_le d (inject_Z (2 ^ 53)))
      by (exists q; now split).
    apply Hcmp in Hmag. rewrite Hmag.
    unfold cast_double. rewrite (double_trunc_value d q Hq).
    pose proof (Qtrunc_bound q (2 ^ 53) Hle) as Hb.
    assert (Hin : in_range s64 (Qtrunc q) = true).
    { apply in_int64_iff. rewrite two_53, two_63 in *. lia. }
    now rewrite Hin.
  - intros Hbig.
    destruct (SFleb (fabs d) MAX_INT_IN_DBL_double); [|reflexivity].
    exfalso. apply Hbig. now apply Hcmp.
Qed.

Lemma cfun_it_s64_new_one `{HostScanner} (x : Janet) :
  cfun_it_s64_new [x] = (v <- janet_unwrap_s64 x ;; Returns (janet_wrap_s64 v)).
Proof. reflexivity. Qed.

Lemma cfun_it_u64_new_one `{HostScanner} (x : Janet) :
  cfun_it_u64_new [x] = (v <- janet_unwrap_u64 x ;; Returns (janet_wrap_u64 v)).
Proof. reflexivity. Qed.

(** C9: a double converts to a signed 64-bit integer exactly when its
    magnitude is at most 2^53, and then to its truncation towards zero;
    the constructor applied to the double 2^53 returns the integer 2^53,
    and applied to a double that is not a number of magnitude at most
    2^53 it fails with the initialization error. *)
Theorem C9_double_to_signed `{HostScanner} (d : spec_float) :
  is_double d = true ->
  (forall q, double_value d = Some q -> (Qabs q <= inject_Z (2 ^ 53))%Q ->
     janet_unwrap_s64 (JanetNumber d) = Returns (Qtrunc q)
     /\ cfun_it_s64_new [JanetNumber d] = Returns (janet_wrap_s64 (Qtrunc q)))
  /\ (~ double_magnitude_le d (inject_Z (2 ^ 53)) ->
      janet_unwrap_s64 (JanetNumber d) = Panics InitializationError_s64
      /\ cfun_it_s64_new [JanetNumber d] = Panics InitializationError_s64)
  /\ (forall q, double_value d = Some q -> (inject_Z (2 ^ 53) < Qabs q)%Q ->
      cfun_it_s64_new [JanetNumber d] = Panics InitializationError_s64)
  /\ ((exists z, janet_unwrap_s64 (JanetNumber d) = Returns z)
      <-> double_magnitude_le d (inject_Z (2 ^ 53)))
  /\ double_value MAX_INT_IN_DBL_double = Some (inject_Z (2 ^ 53))
  /\ cfun_it_s64_new [JanetNumber MAX_INT_IN_DBL_double]
     = Returns (janet_wrap_s64 (2 ^ 53)).
Proof.
  intros Hd. destruct (janet_unwrap_s64_number d Hd) as [Hin Hout].
  split; [|split; [|split; [|split; [|split]]]].
  - intros q Hq Hle. rewrite cfun_it_s64_new_one, (Hin q Hq Hle). now split.
  - intros Hbig. rewrite cfun_it_s64_new_one, (Hout Hbig). now split.
  - intros q Hq Hgt. rewrite cfun_it_s64_new_one, Hout; [reflexivity|].
    intros [q' [Hq' Hle]]. rewrite Hq in Hq'. injection Hq' as <-.
    exact (Qle_not_lt _ _ Hle Hgt).
  - split.
    + intros [z Hz].
      destruct (SFleb (fabs d) MAX_INT_IN_DBL_double) eqn:E.
      * now apply SFleb_fabs_MAX.
      * cbn [janet_unwrap_s64] in Hz. rewrite E in Hz. discriminate Hz.
    + intros [q [Hq Hle]]. exists (Qtrunc q). now apply Hin.
  - reflexivity.
  - reflexivity.
Qed.

Lemma C9_double_to_signed_witness :
  cfun_it_s64_new [JanetNumber double_minus_one] = Returns (janet_wrap_s64 (-1)).
Proof.
  pose proof (C9_double_to_signed double_minus_one eq_refl) as (Hin & _).
  destruct (Hin (Qmake (-4503599627370496) 4503599627370496) eq_refl) as [_ Hnew].
  - unfold Qle. simpl. lia.
  - exact Hnew.
Defined.

(** Truncation is towards zero: -2.5 converts to -2, and the least
    double above 2^53 is refused. *)
Example janet_unwrap_s64_truncates `{HostScanner} :
  is_double (S754_finite true 5629499534213120 (-51)) = true
  /\ janet_unwrap_s64 (JanetNumber (S754_finite true 5629499534213120 (-51)))
     = Returns (-2)
  /\ is_double (S754_finite false 4503599627370497 1) = true
  /\ janet_unwrap_s64 (JanetNumber (S754_finite false 4503599627370497 1))
     = Panics InitializationError_s64.
Proof. repeat split. Qed.

(** A number below zero has its sign bit set. *)
Lemma double_negative_sign (d : spec_float) :
  double_negative d ->
  d = S754_infinity true \/ exists m e, d = S754_finite true m e.
Proof.
  intros [->|[q [Hq Hneg]]]; [now left|right].
  destruct d as [s|s| |s m e]; cbn [double_value] in Hq; try discriminate.
  - injection Hq as <-. discriminate Hneg.
  - destruct s; [eauto|]. injection Hq as <-. exfalso.
    unfold Qlt in Hneg.
    destruct (Z.leb_spec 0 e) as [He|He].
    + change (Zpos m * 2 ^ e * 1 < 0 * 1) in Hneg.
      assert (0 <= 2 ^ e) by (apply Z.pow_nonneg; lia). nia.
    + change (Zpos m * 1 < 0 * Zpos (Z.to_pos (2 ^ (- e)))) in Hneg. lia.
Qed.

Lemma janet_unwrap_u64_negative `{HostScanner} (d : spec_float) :
  double_negative d ->
  janet_unwrap_u64 (JanetNumber d) = Panics InitializationError_u64.
Proof.
  intros Hneg.
  destruct (double_negative_sign d Hneg) as [->|[m [e ->]]]; reflexivity.
Qed.

(** C10: the unsigned conversion rejects every double below zero, of
    whatever magnitude: the conversion and the unsigned constructor fail
    with the initialization error, as for -1.0; the signed conversion
    accepts the same double whenever its magnitude is at most 2^53. *)
Theorem C10_unsigned_rejects_negative `{HostScanner} (d : spec_float) :
  is_double d = true ->
  double_negative d ->
  janet_unwrap_u64 (JanetNumber d) = Panics InitializationError_u64
  /\ cfun_it_u64_new [JanetNumber d] = Panics InitializationError_u64
  /\ (forall q, double_value d = Some q -> (Qabs q <= inject_Z (2 ^ 53))%Q ->
        janet_unwrap_s64 (JanetNumber d) = Returns (Qtrunc q))
  /\ janet_unwrap_u64 (JanetNumber double_minus_one)
     = Panics InitializationError_u64
  /\ janet_unwrap_s64 (JanetNumber double_minus_one) = Returns (-1).
Proof.
  intros Hd Hneg.
  pose proof (janet_unwrap_u64_negative d Hneg) as Hu.
  split; [exact Hu|].
  split; [now rewrite cfun_it_u64_new_one, Hu|].
  split; [apply (janet_unwrap_s64_number d Hd)|].
  split; reflexivity.
Qed.

Lemma C10_unsigned_rejects_negative_witness :
  cfun_it_u64_new [JanetNumber double_minus_one] = Panics InitializationError_u64.
Proof.
  assert (Hneg : double_negative double_minus_one).
  { right. exists (Qmake (-4503599627370496) 4503599627370496).
    split; reflexivity. }
  pose proof (C10_unsigned_rejects_negative double_minus_one eq_refl Hneg)
    as (_ & Hnew & _).
  exact Hnew.
Defined.

(** * Further properties of the code *)

(** ** The compare functions *)

Lemma as_s64_eq_iff (p q : Z) :
  as_s64 p = as_s64 q <-> p mod 2 ^ 64 = q mod 2 ^ 64.
Proof.
  split; intros E.
  - rewrite <- !payload_of_as_s64. now rewrite E.
  - unfold as_s64.
    rewrite <- (Zplus_mod_idemp_l p), <- (Zplus_mod_idemp_l q). now rewrite E.
Qed.

Lemma three_way_cases (x y : Z) :
  ((if x =? y then 0 else if x <? y then -1 else 1) = 0 <-> x = y)
  /\ ((if x =? y then 0 else if x <? y then -1 else 1) = -1 <-> x < y)
  /\ ((if x =? y then 0 else if x <? y then -1 else 1) = 1 <-> y < x).
Proof.
  destruct (Z.eqb_spec x y); destruct (Z.ltb_spec x y); lia.
Qed.

Lemma three_way_opp (x y : Z) :
  (if x =? y then 0 else if x <? y then -1 else 1)
  = - (if y =? x then 0 else if y <? x then -1 else 1).
Proof.
  destruct (Z.eqb_spec x y); destruct (Z.eqb_spec y x);
    destruct (Z.ltb_spec x y); destruct (Z.ltb_spec y x); lia.
Qed.

(** X1: [janet_int64_compare] is the three-way comparison of the signed
    readings of two payloads: it is 0 exactly when the payloads hold the
    same 64 bits, -1 or 1 according to the signed order, it changes sign
    when its arguments are exchanged, and "not greater" is transitive. *)
Theorem X1_int64_compare_signed_order (p q r : Z) :
  (janet_int64_compare p q = 0 <-> p mod 2 ^ 64 = q mod 2 ^ 64)
  /\ (janet_int64_compare p q = -1 <-> as_s64 p < as_s64 q)
  /\ (janet_int64_compare p q = 1 <-> as_s64 q < as_s64 p)
  /\ janet_int64_compare p q = - janet_int64_compare q p
  /\ (janet_int64_compare p q <> 1 -> janet_int64_compare q r <> 1 ->
      janet_int64_compare p r <> 1).
Proof.
  unfold janet_int64_compare. cbv zeta.
  destruct (three_way_cases (as_s64 p) (as_s64 q)) as (Hz & Hl & Hg).
  split; [rewrite Hz; apply as_s64_eq_iff|].
  split; [exact Hl|]. split; [exact Hg|].
  split; [apply three_way_opp|].
  destruct (three_way_cases (as_s64 q) (as_s64 r)) as (_ & _ & Hg2).
  destruct (three_way_cases (as_s64 p) (as_s64 r)) as (_ & _ & Hg3).
  rewrite Hg, Hg2, Hg3. lia.
Qed.

(** X2: [janet_uint64_compare] is the three-way comparison of the unsigned
    readings: 0 exactly when the payloads hold the same 64 bits, -1 or 1
    according to the unsigned order, antisymmetric, and "not greater" is
    transitive. *)
Theorem X2_uint64_compare_unsigned_order (p q r : Z) :
  (janet_uint64_compare p q = 0 <-> p mod 2 ^ 64 = q mod 2 ^ 64)
  /\ (janet_uint64_compare p q = -1 <-> as_u64 p < as_u64 q)
  /\ (janet_uint64_compare p q = 1 <-> as_u64 q < as_u64 p)
  /\ janet_uint64_compare p q = - janet_uint64_compare q p
  /\ (janet_uint64_compare p q <> 1 -> janet_uint64_compare q r <> 1 ->
      janet_uint64_compare p r <> 1).
Proof.
  unfold janet_uint64_compare. cbv zeta.
  destruct (three_way_cases (as_u64 p) (as_u64 q)) as (Hz & Hl & Hg).
  split; [exact Hz|].
  split; [exact Hl|]. split; [exact Hg|].
  split; [apply three_way_opp|].
  destruct (three_way_cases (as_u64 q) (as_u64 r)) as (_ & _ & Hg2).
  destruct (three_way_cases (as_u64 p) (as_u64 r)) as (_ & _ & Hg3).
  rewrite Hg, Hg2, Hg3. lia.
Qed.

(** X3: on two payloads whose top bits agree the two compare functions
    give the same answer, and on two payloads whose top bits differ they
    give opposite answers: the payload with the top bit set is the smaller
    one as a signed value and the larger one as an unsigned value. *)
Theorem X3_compare_signed_versus_unsigned (p q : Z) :
  0 <= p < 2 ^ 64 -> 0 <= q < 2 ^ 64 ->
  (Z.testbit p 63 = Z.testbit q 63 ->
   janet_int64_compare p q = janet_uint64_compare p q)
  /\ (Z.testbit p 63 <> Z.testbit q 63 ->
      janet_int64_compare p q = - janet_uint64_compare p q
      /\ janet_int64_compare p q <> 0).
Proof.
  intros Hp Hq.
  assert (Hbit : forall w, 0 <= w < 2 ^ 64 -> Z.testbit w 63 = (2 ^ 63 <=? w)).
  { intros w Hw.
    pose proof (Z.testbit_spec' w 63 ltac:(lia)) as Hb.
    pose proof (Z.div_mod w (2 ^ 63) ltac:(rewrite two_63; lia)) as Hdm.
    pose proof (Z.mod_pos_bound w (2 ^ 63) eq_refl) as Hm.
    rewrite two_63, two_64 in *.
    destruct (Z.leb_spec 9223372036854775808 w).
    - assert (E : w / 9223372036854775808 = 1) by lia.
      rewrite E in Hb. destruct (Z.testbit w 63); [reflexivity|discriminate].
    - assert (E : w / 9223372036854775808 = 0) by lia.
      rewrite E in Hb. destruct (Z.testbit w 63); [discriminate|reflexivity]. }
  rewrite (Hbit p Hp), (Hbit q Hq).
  unfold janet_int64_compare, janet_uint64_compare. cbv zeta.
  rewrite (as_s64_cases p Hp), (as_s64_cases q Hq).
  rewrite (as_u64_small p Hp), (as_u64_small q Hq).
  rewrite two_63, two_64 in *.
  destruct (Z.leb_spec 9223372036854775808 p);
    destruct (Z.leb_spec 9223372036854775808 q);
    destruct (Z.ltb_spec p 9223372036854775808);
    destruct (Z.ltb_spec q 9223372036854775808); try lia;
    (split; [intros Hsame|intros Hdiff]; try congruence);
    repeat match goal with
           | |- context [Z.eqb ?a ?b] => destruct (Z.eqb_spec a b)
           | |- context [Z.ltb ?a ?b] => destruct (Z.ltb_spec a b)
           end; try lia; split; lia.
Qed.

Lemma X3_compare_signed_versus_unsigned_witness :
  janet_int64_compare 18446744073709551615 5 = - janet_uint64_compare 18446744073709551615 5
  /\ janet_int64_compare 18446744073709551615 5 <> 0.
Proof.
  assert (Hp : 0 <= 18446744073709551615 < 2 ^ 64) by (rewrite two_64; lia).
  assert (Hq : 0 <= 5 < 2 ^ 64) by (rewrite two_64; lia).
  apply (X3_compare_signed_versus_unsigned 18446744073709551615 5 Hp Hq).
  vm_compute. discriminate.
Defined.

(** The hash reads a payload through its low 64 bits only. *)
Lemma janet_int64_hash_mod (order : endianness) (p : Z) :
  janet_int64_hash order p = janet_int64_hash order (p mod 2 ^ 64).
Proof.
  rewrite !janet_int64_hash_words.
  assert (Hlo : (p mod 2 ^ 64) mod 2 ^ 32 = p mod 2 ^ 32).
  { rewrite two_64, two_32. Z.div_mod_to_equations. lia. }
  assert (Hhi : (p mod 2 ^ 64) / 2 ^ 32 mod 2 ^ 32 = p / 2 ^ 32 mod 2 ^ 32).
  { rewrite two_64, two_32. Z.div_mod_to_equations. lia. }
  now rewrite Hlo, Hhi.
Qed.

(** X4: keys that compare equal hash equally, as a hash table needs: two
    payloads on which [janet_int64_compare] or [janet_uint64_compare]
    returns 0 have the same [janet_int64_hash]; and the hash does not
    depend on the byte order of the host, the XOR of the two words being
    symmetric. *)
Theorem X4_equal_keys_hash_equally (order : endianness) (p q : Z) :
  (janet_int64_compare p q = 0 ->
   janet_int64_hash order p = janet_int64_hash order q)
  /\ (janet_uint64_compare p q = 0 ->
      janet_int64_hash order p = janet_int64_hash order q)
  /\ janet_int64_hash LittleEndian p = janet_int64_hash BigEndian p.
Proof.
  assert (Hmod : p mod 2 ^ 64 = q mod 2 ^ 64 ->
                 janet_int64_hash order p = janet_int64_hash order q).
  { intros E. rewrite (janet_int64_hash_mod order p), (janet_int64_hash_mod order q).
    now rewrite E. }
  split; [|split].
  - intros E. apply Hmod.
    unfold janet_int64_compare in E. cbv zeta in E.
    apply as_s64_eq_iff. now apply (three_way_cases (as_s64 p) (as_s64 q)).
  - intros E. apply Hmod.
    unfold janet_uint64_compare in E. cbv zeta in E.
    now apply (three_way_cases (as_u64 p) (as_u64 q)).
  - now rewrite !janet_int64_hash_words.
Qed.

(** ** Comparison handlers and the compare functions *)

Lemma COMPMETHOD_two `{HostScanner} (t : inttype) (oper : c_comparison)
  (a b : Janet) (x y : Z) :
  janet_unwrap t a = Returns x ->
  janet_unwrap t b = Returns y ->
  COMPMETHOD t oper [a; b] = Returns (JanetBoolean (c_compare oper x y)).
Proof.
  intros Ha Hb. unfold COMPMETHOD.
  change (janet_fixarity (argc_of [a; b]) 2) with (Returns tt).
  cbn [bind arg nth_error]. rewrite Ha. cbn [bind]. rewrite Hb. reflexivity.
Qed.

Lemma three_way_tests (x y : Z) :
  (x <? y) = ((if x =? y then 0 else if x <? y then -1 else 1) =? -1)
  /\ (x =? y) = ((if x =? y then 0 else if x <? y then -1 else 1) =? 0)
  /\ (x >? y) = ((if x =? y then 0 else if x <? y then -1 else 1) =? 1).
Proof.
  rewrite Z.gtb_ltb.
  destruct (Z.eqb_spec x y); destruct (Z.ltb_spec x y);
    destruct (Z.ltb_spec y x); try lia; repeat split.
Qed.

(** X5: the compare function of each descriptor agrees with the
    comparison handlers of its type: on two boxes of the type, the handler
    for [<] returns true exactly when the compare function returns -1,
    the handler for [=] exactly when it returns 0, and the handler for [>]
    exactly when it returns 1. *)
Theorem X5_compare_agrees_with_handlers `{HostScanner} (p q : Z) :
  cfun_it_s64_lt [JanetAbstract core_s64 p; JanetAbstract core_s64 q]
  = Returns (JanetBoolean (janet_int64_compare p q =? -1))
  /\ cfun_it_s64_eq [JanetAbstract core_s64 p; JanetAbstract core_s64 q]
     = Returns (JanetBoolean (janet_int64_compare p q =? 0))
  /\ cfun_it_s64_gt [JanetAbstract core_s64 p; JanetAbstract core_s64 q]
     = Returns (JanetBoolean (janet_int64_compare p q =? 1))
  /\ cfun_it_u64_lt [JanetAbstract core_u64 p; JanetAbstract core_u64 q]
     = Returns (JanetBoolean (janet_uint64_compare p q =? -1))
  /\ cfun_it_u64_eq [JanetAbstract core_u64 p; JanetAbstract core_u64 q]
     = Returns (JanetBoolean (janet_uint64_compare p q =? 0))
  /\ cfun_it_u64_gt [JanetAbstract core_u64 p; JanetAbstract core_u64 q]
     = Returns (JanetBoolean (janet_uint64_compare p q =? 1)).
Proof.
  assert (Hs : forall w, janet_unwrap s64 (JanetAbstract core_s64 w)
                         = Returns (as_s64 w)) by reflexivity.
  assert (Hu : forall w, janet_unwrap u64 (JanetAbstract core_u64 w)
                         = Returns (as_u64 w)) by reflexivity.
  unfold cfun_it_s64_lt, cfun_it_s64_eq, cfun_it_s64_gt,
    cfun_it_u64_lt, cfun_it_u64_eq, cfun_it_u64_gt.
  rewrite !(COMPMETHOD_two s64 _ _ _ _ _ (Hs p) (Hs q)).
  rewrite !(COMPMETHOD_two u64 _ _ _ _ _ (Hu p) (Hu q)).
  unfold janet_int64_compare, janet_uint64_compare, c_compare. cbv zeta.
  destruct (three_way_tests (as_s64 p) (as_s64 q)) as (E1 & E2 & E3).
  destruct (three_way_tests (as_u64 p) (as_u64 q)) as (E4 & E5 & E6).
  rewrite <- E1, <- E2, <- E3, <- E4, <- E5, <- E6.
  repeat split.
Qed.

(** ** Classification and conversion *)

(** X6: [janet_is_int] answers by the descriptor alone: it returns the
    signed kind exactly on [core/s64] boxes and the unsigned kind exactly on
    [core/u64] boxes. Every value it classifies as an integer is accepted
    by both conversions, whose results are the same modulo 2^64; an
    abstract value it does not classify is refused by both. *)
Theorem X6_is_int_classifies `{HostScanner} (x : Janet) :
  (janet_is_int x = JANET_INT_S64 <-> exists p, x = JanetAbstract core_s64 p)
  /\ (janet_is_int x = JANET_INT_U64 <-> exists p, x = JanetAbstract core_u64 p)
  /\ (janet_is_int x <> JANET_INT_NONE ->
      exists v w, janet_unwrap_s64 x = Returns v
                  /\ janet_unwrap_u64 x = Returns w
                  /\ v mod 2 ^ 64 = w)
  /\ (forall at_id p, x = JanetAbstract at_id p ->
      janet_is_int x = JANET_INT_NONE ->
      janet_unwrap_s64 x = Panics InitializationError_s64
      /\ janet_unwrap_u64 x = Panics InitializationError_u64).
Proof.
  split; [|split; [|split]].
  - split.
    + destruct x; try discriminate. destruct at_id; try discriminate. eauto.
    + intros [p ->]. reflexivity.
  - split.
    + destruct x; try discriminate. destruct at_id; try discriminate. eauto.
    + intros [p ->]. reflexivity.
  - destruct x; try (intros Hn; now elim Hn).
    destruct at_id; try (intros Hn; now elim Hn); intros _;
      exists (as_s64 payload), (as_u64 payload);
      (split; [reflexivity|split; [reflexivity|apply as_s64_as_u64]]).
  - intros at_id p -> Hnone. destruct at_id; try discriminate Hnone.
    split; reflexivity.
Qed.

Lemma Qtrunc_nonneg (q : Q) : (0 <= q)%Q -> 0 <= Qtrunc q.
Proof.
  destruct q as [n d]. unfold Qle, Qtrunc. cbn [Qnum Qden].
  rewrite Z.mul_1_r. intros Hn. apply Z.quot_pos; lia.
Qed.

(** The unsigned conversion of a double: within the two tests of the
    source the cast is defined, and the signed conversion agrees. *)
Lemma janet_unwrap_u64_number (d : spec_float) :
  is_double d = true ->
  SFleb (S754_zero false) d && SFleb d MAX_INT_IN_DBL_double = true ->
  exists q,
    double_value d = Some q
    /\ 0 <= Qtrunc q <= 2 ^ 53
    /\ cast_double u64 d = Returns (Qtrunc q)
    /\ cast_double s64 d = Returns (Qtrunc q)
    /\ SFleb (fabs d) MAX_INT_IN_DBL_double = true.
Proof.
  intros Hd Hc. apply andb_true_iff in Hc. destruct Hc as [H0 HM].
  assert (Hfabs : SFleb (fabs d) MAX_INT_IN_DBL_double = true).
  { destruct d as [s|s| |s m e].
    - reflexivity.
    - destruct s; [discriminate H0|discriminate HM].
    - discriminate HM.
    - destruct s; [discriminate H0|exact HM]. }
  destruct (proj1 (SFleb_fabs_MAX d Hd) Hfabs) as [q [Hq Hle]].
  exists q. split; [exact Hq|].
  assert (Hnonneg : (0 <= q)%Q).
  { destruct d as [s|s| |s m e]; try discriminate Hq.
    - cbn [double_value] in Hq. injection Hq as <-. apply Qle_refl.
    - destruct s; [discriminate H0|].
      cbn [double_value] in Hq. injection Hq as <-. unfold Qle.
      destruct (Z.leb_spec 0 e) as [He|He].
      + change (0 * 1 <= Zpos m * 2 ^ e * 1).
        assert (0 <= 2 ^ e) by (apply Z.pow_nonneg; lia). nia.
      + change (0 * Zpos (Z.to_pos (2 ^ (- e))) <= Zpos m * 1). lia. }
  pose proof (Qtrunc_nonneg q Hnonneg) as Hlow.
  pose proof (Qtrunc_bound q (2 ^ 53) Hle) as Hhigh.
  split; [lia|].
  unfold cast_double. rewrite (double_trunc_value d q Hq).
  assert (Hu : in_range u64 (Qtrunc q) = true).
  { apply in_uint64_iff. rewrite two_53, two_64 in *. lia. }
  assert (Hs : in_range s64 (Qtrunc q) = true).
  { apply in_int64_iff. rewrite two_53, two_63 in *. lia. }
  rewrite Hu, Hs. repeat split. exact Hfabs.
Qed.

Lemma janet_unwrap_s64_defined `{HostScanner} (x : Janet) :
  valid_janet x ->
  (exists v, janet_unwrap_s64 x = Returns v)
  \/ janet_unwrap_s64 x = Panics InitializationError_s64.
Proof.
  intros Hx. destruct x; try (right; reflexivity).
  - cbn [janet_unwrap_s64].
    destruct (SFleb (fabs d) MAX_INT_IN_DBL_double) eqn:E; [|right; reflexivity].
    destruct (proj1 (SFleb_fabs_MAX d Hx) E) as [q [Hq Hle]].
    destruct (janet_unwrap_s64_number d Hx) as [Hin _].
    specialize (Hin q Hq Hle). cbn [janet_unwrap_s64] in Hin.
    rewrite E in Hin. left. eauto.
  - cbn [janet_unwrap_s64]. destruct (janet_scan_int64 s); [left|right]; eauto.
  - cbn [janet_unwrap_s64]. destruct (is_int_type_id at_id); [left|right]; eauto.
Qed.

Lemma janet_unwrap_u64_defined `{HostScanner} (x : Janet) :
  valid_janet x ->
  (exists v, janet_unwrap_u64 x = Returns v)
  \/ janet_unwrap_u64 x = Panics InitializationError_u64.
Proof.
  intros Hx. destruct x; try (right; reflexivity).
  - cbn [janet_unwrap_u64].
    destruct (SFleb (S754_zero false) d && SFleb d MAX_INT_IN_DBL_double) eqn:E;
      [|right; reflexivity].
    destruct (janet_unwrap_u64_number d Hx E) as (q & _ & _ & Hc & _).
    left. eauto.
  - cbn [janet_unwrap_u64]. destruct (janet_scan_uint64 s); [left|right]; eauto.
  - cbn [janet_unwrap_u64]. destruct (is_int_type_id at_id); [left|right]; eauto.
Qed.

Lemma janet_unwrap_not_undefined `{HostScanner} (t : inttype) (x : Janet) :
  valid_janet x -> janet_unwrap t x <> Undefined.
Proof.
  intros Hx. destruct t; cbn [janet_unwrap].
  - destruct (janet_unwrap_s64_defined x Hx) as [[v ->]| ->]; discriminate.
  - destruct (janet_unwrap_u64_defined x Hx) as [[v ->]| ->]; discriminate.
Qed.

(** X7: the conversion layer never runs into an undefined cast: on every
    well-formed value, [janet_unwrap_s64] either returns an integer within
    the range of [int64_t] or panics with its initializer error, and
    [janet_unwrap_u64] either returns one within the range of [uint64_t]
    or panics with its own. *)
Theorem X7_conversion_returns_or_panics `{HostScanner} (x : Janet) :
  valid_janet x ->
  ((exists v, janet_unwrap_s64 x = Returns v /\ - 2 ^ 63 <= v <= 2 ^ 63 - 1)
   \/ janet_unwrap_s64 x = Panics InitializationError_s64)
  /\ ((exists v, janet_unwrap_u64 x = Returns v /\ 0 <= v <= 2 ^ 64 - 1)
      \/ janet_unwrap_u64 x = Panics InitializationError_u64).
Proof.
  intros Hx. split.
  - destruct (janet_unwrap_s64_defined x Hx) as [[v Hv]|Hp]; [left|now right].
    exists v. split; [exact Hv|]. now apply janet_unwrap_s64_in_int64 with x.
  - destruct (janet_unwrap_u64_defined x Hx) as [[v Hv]|Hp]; [left|now right].
    exists v. split; [exact Hv|]. now apply janet_unwrap_u64_in_uint64 with x.
Qed.

Lemma X7_conversion_returns_or_panics_witness :
  ((exists v, janet_unwrap_s64 (JanetNumber double_minus_one) = Returns v
              /\ - 2 ^ 63 <= v <= 2 ^ 63 - 1)
   \/ janet_unwrap_s64 (JanetNumber double_minus_one)
      = Panics InitializationError_s64)
  /\ ((exists v, janet_unwrap_u64 (JanetNumber double_minus_one) = Returns v
                 /\ 0 <= v <= 2 ^ 64 - 1)
      \/ janet_unwrap_u64 (JanetNumber double_minus_one)
         = Panics InitializationError_u64).
Proof.
  apply (X7_conversion_returns_or_panics (JanetNumber double_minus_one)).
  reflexivity.
Defined.

(** X8: a double that the unsigned conversion accepts converts to the
    same integer through the signed conversion; that integer is the
    truncation of the double and lies in [0, 2^53]. *)
Theorem X8_accepted_unsigned_double_converts_alike `{HostScanner}
  (d : spec_float) (v : Z) :
  is_double d = true ->
  janet_unwrap_u64 (JanetNumber d) = Returns v ->
  janet_unwrap_s64 (JanetNumber d) = Returns v
  /\ 0 <= v <= 2 ^ 53
  /\ exists q, double_value d = Some q /\ v = Qtrunc q.
Proof.
  intros Hd Hv. cbn [janet_unwrap_u64] in Hv.
  destruct (SFleb (S754_zero false) d && SFleb d MAX_INT_IN_DBL_double) eqn:E;
    [|discriminate Hv].
  destruct (janet_unwrap_u64_number d Hd E) as (q & Hq & Hb & Hu & Hs & Hf).
  rewrite Hu in Hv. injection Hv as <-.
  split; [|split; [exact Hb|eauto]].
  cbn [janet_unwrap_s64]. now rewrite Hf.
Qed.

Lemma X8_accepted_unsigned_double_converts_alike_witness :
  janet_unwrap_s64 (JanetNumber MAX_INT_IN_DBL_double) = Returns (2 ^ 53).
Proof.
  apply (X8_accepted_unsigned_double_converts_alike
           MAX_INT_IN_DBL_double (2 ^ 53) eq_refl eq_refl).
Defined.

(** ** Arity checks and constructors *)

Lemma janet_fixarity_fails (argc n : Z) :
  argc <> n -> janet_fixarity argc n = Panics (arity_mismatch n n argc).
Proof.
  intros Hne. unfold janet_fixarity.
  destruct (Z.eqb_spec argc n); [contradiction|reflexivity].
Qed.

Lemma janet_arity_fails (argc : Z) :
  argc < 2 -> janet_arity argc 2 (-1) = Panics (arity_mismatch 2 (-1) argc).
Proof.
  intros Hlt. unfold janet_arity.
  destruct (Z.ltb_spec argc 2); [reflexivity|lia].
Qed.

(** X9: every C function of the module checks its operand count before it
    looks at any operand: called with a count outside its bounds (exactly 1
    for the constructors, exactly 2 for the comparisons and the reverse
    entries, at least 2 for the n-ary handlers) it panics with the arity
    error whatever the operands are, so a call that returns had a count
    within the bounds. *)
Theorem X9_arity_checked_first `{HostScanner} (f : JanetCFunction)
  (argv : list Janet) :
  (arity_ok f (argc_of argv) = false ->
   call_cfunction f argv
   = Panics (arity_mismatch (fst (handler_arity f)) (snd (handler_arity f))
               (argc_of argv)))
  /\ (forall r, call_cfunction f argv = Returns r ->
      arity_ok f (argc_of argv) = true).
Proof.
  assert (Hfail : arity_ok f (argc_of argv) = false ->
    call_cfunction f argv
    = Panics (arity_mismatch (fst (handler_arity f)) (snd (handler_arity f))
                (argc_of argv))).
  { unfold arity_ok. intros Hbad.
    destruct f; cbn [handler_arity fst snd] in *;
      cbn [call_cfunction];
      unfold cfun_it_s64_new, cfun_it_u64_new,
        cfun_it_s64_add, cfun_it_s64_sub, cfun_it_s64_subi, cfun_it_s64_mul,
        cfun_it_s64_div, cfun_it_s64_rem, cfun_it_s64_divi, cfun_it_s64_remi,
        cfun_it_s64_mod, cfun_it_s64_modi,
        cfun_it_s64_and, cfun_it_s64_or, cfun_it_s64_xor,
        cfun_it_s64_lshift, cfun_it_s64_rshift,
        cfun_it_s64_lt, cfun_it_s64_gt, cfun_it_s64_le, cfun_it_s64_ge,
        cfun_it_s64_eq, cfun_it_s64_ne,
        cfun_it_u64_add, cfun_it_u64_sub, cfun_it_u64_subi, cfun_it_u64_mul,
        cfun_it_u64_div, cfun_it_u64_mod, cfun_it_u64_divi, cfun_it_u64_modi,
        cfun_it_u64_and, cfun_it_u64_or, cfun_it_u64_xor,
        cfun_it_u64_lshift, cfun_it_u64_rshift,
        cfun_it_u64_lt, cfun_it_u64_gt, cfun_it_u64_le, cfun_it_u64_ge,
        cfun_it_u64_eq, cfun_it_u64_ne,
        OPMETHOD, OPMETHODINVERT, DIVMETHOD, DIVMETHODINVERT,
        DIVMETHOD_SIGNED, DIVMETHODINVERT_SIGNED, COMPMETHOD;
      first [ rewrite janet_fixarity_fails; [reflexivity|]
            | rewrite janet_arity_fails; [reflexivity|] ];
      revert Hbad;
      repeat match goal with
             | |- context [Z.leb ?a ?b] => destruct (Z.leb_spec a b)
             | |- context [Z.ltb ?a ?b] => destruct (Z.ltb_spec a b)
             end; cbn [andb orb]; intros; try discriminate; lia. }
  split; [exact Hfail|].
  intros r Hr. destruct (arity_ok f (argc_of argv)) eqn:E; [reflexivity|].
  rewrite (Hfail eq_refl) in Hr. discriminate Hr.
Qed.

Lemma X9_arity_checked_first_witness :
  call_cfunction fn_s64_lt [JanetNil; JanetNil; JanetNil]
  = Panics (arity_mismatch 2 2 3).
Proof.
  exact (proj1 (X9_arity_checked_first fn_s64_lt [JanetNil; JanetNil; JanetNil])
           eq_refl).
Defined.

Lemma cfun_it_s64_new_returns `{HostScanner} (x r : Janet) :
  cfun_it_s64_new [x] = Returns r ->
  exists v, janet_unwrap_s64 x = Returns v
            /\ - 2 ^ 63 <= v <= 2 ^ 63 - 1 /\ r = janet_wrap_s64 v.
Proof.
  rewrite cfun_it_s64_new_one.
  destruct (janet_unwrap_s64 x) as [v| |] eqn:E; try discriminate.
  cbn [bind]. intros Hr. injection Hr as <-.
  exists v. split; [reflexivity|]. split; [|reflexivity].
  now apply janet_unwrap_s64_in_int64 with x.
Qed.

Lemma cfun_it_u64_new_returns `{HostScanner} (x r : Janet) :
  cfun_it_u64_new [x] = Returns r ->
  exists v, janet_unwrap_u64 x = Returns v
            /\ 0 <= v <= 2 ^ 64 - 1 /\ r = janet_wrap_u64 v.
Proof.
  rewrite cfun_it_u64_new_one.
  destruct (janet_unwrap_u64 x) as [v| |] eqn:E; try discriminate.
  cbn [bind]. intros Hr. injection Hr as <-.
  exists v. split; [reflexivity|]. split; [|reflexivity].
  now apply janet_unwrap_u64_in_uint64 with x.
Qed.

Lemma payload_of_range (x : Z) : 0 <= payload_of x < 2 ^ 64.
Proof. unfold payload_of. apply Z.mod_pos_bound. reflexivity. Qed.

(** X10: the signed constructor is idempotent and loses nothing through
    the unsigned type: the box [r] it returns is a [core/s64] box holding a
    value of [int64_t] that converts back to that value; constructing again
    from [r] returns [r]; and constructing an unsigned box from [r] and a
    signed box from that one returns [r] again. *)
Theorem X10_signed_constructor_round_trips `{HostScanner} (x r : Janet) :
  cfun_it_s64_new [x] = Returns r ->
  (exists v, - 2 ^ 63 <= v <= 2 ^ 63 - 1
             /\ r = janet_wrap_s64 v
             /\ janet_unwrap_s64 r = Returns v)
  /\ janet_is_int r = JANET_INT_S64
  /\ cfun_it_s64_new [r] = Returns r
  /\ exists r', cfun_it_u64_new [r] = Returns r'
                /\ janet_is_int r' = JANET_INT_U64
                /\ cfun_it_s64_new [r'] = Returns r.
Proof.
  intros Hr. destruct (cfun_it_s64_new_returns x r Hr) as (v & _ & Hv & ->).
  assert (Hback : janet_unwrap_s64 (janet_wrap_s64 v) = Returns v)
    by now apply janet_unwrap_wrap_s64.
  split; [exists v; now repeat split|].
  split; [reflexivity|].
  split; [now rewrite cfun_it_s64_new_one, Hback|].
  exists (janet_wrap_u64 (as_u64 (payload_of v))).
  split; [reflexivity|]. split; [reflexivity|].
  rewrite cfun_it_s64_new_one.
  change (janet_unwrap_s64 (janet_wrap_u64 (as_u64 (payload_of v))))
    with (Returns (as_s64 (payload_of (as_u64 (payload_of v))))).
  cbn [bind]. rewrite payload_of_as_u64.
  rewrite (Z.mod_small (payload_of v)) by apply payload_of_range.
  now rewrite as_s64_payload_of.
Qed.

Lemma X10_signed_constructor_round_trips_witness :
  cfun_it_s64_new [janet_wrap_s64 (-5)] = Returns (janet_wrap_s64 (-5)).
Proof.
  exact (proj1 (proj2 (proj2 (X10_signed_constructor_round_trips
                                (JanetString "-5") (janet_wrap_s64 (-5)) eq_refl)))).
Defined.

(** X11: the unsigned constructor is idempotent and loses nothing through
    the signed type: the box [r] it returns is a [core/u64] box holding a
    value of [uint64_t] that converts back to that value; constructing
    again from [r] returns [r]; and constructing a signed box from [r] and
    an unsigned box from that one returns [r] again. *)
Theorem X11_unsigned_constructor_round_trips `{HostScanner} (x r : Janet) :
  cfun_it_u64_new [x] = Returns r ->
  (exists v, 0 <= v <= 2 ^ 64 - 1
             /\ r = janet_wrap_u64 v
             /\ janet_unwrap_u64 r = Returns v)
  /\ janet_is_int r = JANET_INT_U64
  /\ cfun_it_u64_new [r] = Returns r
  /\ exists r', cfun_it_s64_new [r] = Returns r'
                /\ janet_is_int r' = JANET_INT_S64
                /\ cfun_it_u64_new [r'] = Returns r.
Proof.
  intros Hr. destruct (cfun_it_u64_new_returns x r Hr) as (v & _ & Hv & ->).
  assert (Hsmall : payload_of v = v) by (apply payload_of_small; lia).
  assert (Hback : janet_unwrap_u64 (janet_wrap_u64 v) = Returns v).
  { change (janet_unwrap_u64 (janet_wrap_u64 v))
      with (Returns (as_u64 (payload_of v))).
    rewrite Hsmall. now rewrite as_u64_small by lia. }
  split; [exists v; now repeat split|].
  split; [reflexivity|].
  split; [now rewrite cfun_it_u64_new_one, Hback|].
  exists (janet_wrap_s64 (as_s64 (payload_of v))).
  split; [reflexivity|]. split; [reflexivity|].
  rewrite cfun_it_u64_new_one.
  change (janet_unwrap_u64 (janet_wrap_s64 (as_s64 (payload_of v))))
    with (Returns (as_u64 (payload_of (as_s64 (payload_of v))))).
  cbn [bind]. rewrite payload_of_as_s64.
  rewrite (Z.mod_small (payload_of v)) by apply payload_of_range.
  rewrite Hsmall. now rewrite as_u64_small by lia.
Qed.

Lemma X11_unsigned_constructor_round_trips_witness :
  cfun_it_u64_new [janet_wrap_u64 18446744073709551615]
  = Returns (janet_wrap_u64 18446744073709551615).
Proof.
  exact (proj1 (proj2 (proj2 (X11_unsigned_constructor_round_trips
                                (JanetString "18446744073709551615")
                                (janet_wrap_u64 18446744073709551615) eq_refl)))).
Defined.

(** ** Forward and reverse entries *)

Lemma fixarity_two (a b : Janet) : janet_fixarity (argc_of [a; b]) 2 = Returns tt.
Proof. reflexivity. Qed.

Lemma OPMETHODINVERT_swap `{HostScanner} (t : inttype) (oper : c_operator)
  (a b : Janet) :
  OPMETHODINVERT t oper [a; b] = OPMETHOD t oper [b; a].
Proof.
  unfold OPMETHODINVERT, OPMETHOD, OPMETHOD_body.
  rewrite fixarity_two, argc_of_at_least_two.
  cbn [bind arg nth_error tl for_each_arg].
  destruct (janet_unwrap t b); cbn [bind]; try reflexivity.
  destruct (janet_unwrap t a); cbn [bind]; try reflexivity.
  destruct (c_binop t oper a0 a1); reflexivity.
Qed.

Lemma DIVMETHODINVERT_swap `{HostScanner} (t : inttype) (oper : c_operator)
  (a b : Janet) :
  DIVMETHODINVERT t oper [a; b] = DIVMETHOD t oper [b; a].
Proof.
  unfold DIVMETHODINVERT, DIVMETHOD, DIVMETHOD_body.
  rewrite fixarity_two, argc_of_at_least_two.
  cbn [bind arg nth_error tl for_each_arg].
  destruct (janet_unwrap t b); cbn [bind]; try reflexivity.
  destruct (janet_unwrap t a); cbn [bind]; try reflexivity.
  destruct (a1 =? 0); cbn [bind]; try reflexivity.
  destruct (c_binop t oper a0 a1); reflexivity.
Qed.

Lemma DIVMETHODINVERT_SIGNED_swap `{HostScanner} (t : inttype)
  (oper : c_operator) (a b : Janet) :
  DIVMETHODINVERT_SIGNED t oper [a; b] = DIVMETHOD_SIGNED t oper [b; a].
Proof.
  unfold DIVMETHODINVERT_SIGNED, DIVMETHOD_SIGNED, DIVMETHOD_SIGNED_body.
  rewrite fixarity_two, argc_of_at_least_two.
  cbn [bind arg nth_error tl for_each_arg].
  destruct (janet_unwrap t b); cbn [bind]; try reflexivity.
  destruct (janet_unwrap t a); cbn [bind]; try reflexivity.
  destruct (a1 =? 0); cbn [bind]; try reflexivity.
  destruct ((a1 =? -1) && (a0 =? INT64_MIN)); cbn [bind]; try reflexivity.
  destruct (c_binop t oper a0 a1); reflexivity.
Qed.

(** X12: each reverse entry for subtraction, division and remainder is the
    forward entry with its two operands exchanged, for all operands and in
    every outcome: the reverse entry called with [(a, b)] returns, or fails
    with, exactly what the forward entry does on [(b, a)]. *)
Theorem X12_reverse_entries_swap_operands `{HostScanner} (a b : Janet) :
  cfun_it_s64_subi [a; b] = cfun_it_s64_sub [b; a]
  /\ cfun_it_s64_divi [a; b] = cfun_it_s64_div [b; a]
  /\ cfun_it_s64_remi [a; b] = cfun_it_s64_rem [b; a]
  /\ cfun_it_u64_subi [a; b] = cfun_it_u64_sub [b; a]
  /\ cfun_it_u64_divi [a; b] = cfun_it_u64_div [b; a]
  /\ cfun_it_u64_modi [a; b] = cfun_it_u64_mod [b; a].
Proof.
  repeat split;
    first [ apply OPMETHODINVERT_swap
          | apply DIVMETHODINVERT_SIGNED_swap
          | apply DIVMETHODINVERT_swap ].
Qed.

(** X13: the reverse entry of the signed [mod] does not exchange its
    operands: whenever the second operand does not convert to zero,
    [cfun_it_s64_modi] on [(a, b)] returns, or fails with, exactly what the
    forward [cfun_it_s64_mod] does on [(a, b)] in the same order. *)
Theorem X13_rmod_keeps_operand_order `{HostScanner} (a b : Janet) :
  janet_unwrap_s64 b <> Returns 0 ->
  cfun_it_s64_modi [a; b] = cfun_it_s64_mod [a; b].
Proof.
  intros Hb. unfold cfun_it_s64_modi, cfun_it_s64_mod, cfun_it_s64_mod_body.
  rewrite fixarity_two, argc_of_at_least_two.
  cbn [bind arg nth_error tl for_each_arg].
  destruct (janet_unwrap_s64 a) as [x| |]; cbn [bind]; try reflexivity.
  destruct (janet_unwrap_s64 b) as [y| |]; cbn [bind]; try reflexivity.
  destruct (Z.eqb_spec y 0) as [->|Hy]; [now elim Hb|].
  destruct (c_rem s64 x y) as [r| |]; cbn [bind]; try reflexivity.
  destruct (mod_adjust x r); reflexivity.
Qed.

Lemma X13_rmod_keeps_operand_order_witness :
  cfun_it_s64_modi [janet_wrap_s64 (-7); janet_wrap_s64 3]
  = cfun_it_s64_mod [janet_wrap_s64 (-7); janet_wrap_s64 3].
Proof.
  apply (X13_rmod_keeps_operand_order (janet_wrap_s64 (-7)) (janet_wrap_s64 3)).
  vm_compute. discriminate.
Defined.

(** ** The guarded division handlers are always defined *)

Lemma bind_not_undefined {A B : Type} (c : outcome A) (k : A -> outcome B) :
  c <> Undefined -> (forall a, k a <> Undefined) -> bind c k <> Undefined.
Proof.
  intros Hc Hk. destruct c as [a|p|]; cbn [bind].
  - apply Hk.
  - discriminate.
  - now elim Hc.
Qed.

Lemma for_each_arg_not_undefined (body : Z -> Janet -> outcome Z)
  (args : list Janet) :
  (forall box x, valid_janet x -> body box x <> Undefined) ->
  Forall valid_janet args ->
  forall box, for_each_arg body box args <> Undefined.
Proof.
  intros Hbody Hargs. induction Hargs as [|x args Hx _ IH]; intros box;
    cbn [for_each_arg].
  - discriminate.
  - apply bind_not_undefined; [now apply Hbody|exact IH].
Qed.

Lemma DIVMETHOD_body_u64_not_undefined `{HostScanner} (oper : c_operator)
  (box : Z) (x : Janet) :
  oper = op_div \/ oper = op_rem ->
  valid_janet x -> DIVMETHOD_body u64 oper box x <> Undefined.
Proof.
  intros Hop Hx. unfold DIVMETHOD_body.
  apply bind_not_undefined; [now apply janet_unwrap_not_undefined|].
  intros v. destruct (Z.eqb_spec v 0) as [|Hnz]; [discriminate|].
  destruct Hop as [-> | ->]; cbn [c_binop]; unfold c_div, c_rem;
    destruct (Z.eqb_spec v 0); try contradiction; discriminate.
Qed.

Lemma DIVMETHOD_SIGNED_body_s64_not_undefined `{HostScanner}
  (oper : c_operator) (box : Z) (x : Janet) :
  oper = op_div \/ oper = op_rem ->
  valid_janet x -> DIVMETHOD_SIGNED_body s64 oper box x <> Undefined.
Proof.
  intros Hop Hx. unfold DIVMETHOD_SIGNED_body.
  apply bind_not_undefined; [now apply janet_unwrap_not_undefined|].
  intros v. destruct (Z.eqb_spec v 0) as [|Hnz]; [discriminate|].
  destruct (Z.eqb_spec v (-1)) as [Hm|Hm];
    destruct (Z.eqb_spec box INT64_MIN) as [Hb|Hb]; cbn [andb];
    try discriminate;
    (rewrite guarded_signed_division; [discriminate|assumption|assumption|tauto]).
Qed.

Lemma nary_division_not_undefined `{HostScanner} (t : inttype)
  (f : list Janet -> outcome Janet) (body : Z -> Janet -> outcome Z)
  (argv : list Janet) :
  In (f, body) (division_handlers t) ->
  Forall valid_janet argv -> f argv <> Undefined.
Proof.
  intros Hin Hargv.
  destruct (division_handlers_shape t f body Hin) as (Hf & _).
  assert (Hbody : forall box x, valid_janet x -> body box x <> Undefined).
  { destruct t; cbn [division_handlers] in Hin;
      destruct Hin as [E|[E|[]]]; injection E as _ <-; intros box x Hx.
    - apply DIVMETHOD_SIGNED_body_s64_not_undefined; [now left|assumption].
    - apply DIVMETHOD_SIGNED_body_s64_not_undefined; [now right|assumption].
    - apply DIVMETHOD_body_u64_not_undefined; [now left|assumption].
    - apply DIVMETHOD_body_u64_not_undefined; [now right|assumption]. }
  rewrite Hf.
  destruct argv as [|a0 [|a1 rest]]; try discriminate.
  rewrite argc_of_at_least_two. cbn [bind arg nth_error tl].
  inversion Hargv as [|? ? Ha0 Hrest]; subst.
  apply bind_not_undefined; [now apply janet_unwrap_not_undefined|].
  intros box. apply bind_not_undefined; [|discriminate].
  now apply for_each_arg_not_undefined.
Qed.

Lemma fixarity_two_only :
  forall argv : list Janet,
    (exists a b, argv = [a; b])
    \/ janet_fixarity (argc_of argv) 2
       = Panics (arity_mismatch 2 2 (argc_of argv)).
Proof.
  intros [|a [|b [|c rest]]]; [right|right|left|right]; eauto;
    apply janet_fixarity_fails; unfold argc_of; cbn [List.length]; lia.
Qed.

(** X14: the guarded division and remainder handlers never execute an
    undefined operation: on well-formed operands, whatever their number
    and kind, the eight handlers [div], [rem], [divi], [remi] of the signed
    type and [div], [mod], [divi], [modi] of the unsigned type either
    return or panic. *)
Theorem X14_guarded_division_is_defined `{HostScanner} (f : JanetCFunction)
  (argv : list Janet) :
  In f [fn_s64_div; fn_s64_rem; fn_s64_divi; fn_s64_remi;
        fn_u64_div; fn_u64_mod; fn_u64_divi; fn_u64_modi] ->
  Forall valid_janet argv ->
  call_cfunction f argv <> Undefined.
Proof.
  intros Hin Hargv.
  assert (Hswap : forall a b, Forall valid_janet [a; b] -> Forall valid_janet [b; a]).
  { intros a b Hab. inversion Hab as [|? ? Ha Hb']; subst.
    inversion Hb' as [|? ? Hb _]; subst. now repeat constructor. }
  cbn [In] in Hin.
  destruct Hin as [<-|[<-|[<-|[<-|[<-|[<-|[<-|[<-|[]]]]]]]]];
    cbn [call_cfunction].
  - apply (nary_division_not_undefined s64 _ (DIVMETHOD_SIGNED_body s64 op_div));
      [now left|assumption].
  - apply (nary_division_not_undefined s64 _ (DIVMETHOD_SIGNED_body s64 op_rem));
      [right; now left|assumption].
  - destruct (fixarity_two_only argv) as [(a & b & ->)|Hbad].
    + unfold cfun_it_s64_divi. rewrite DIVMETHODINVERT_SIGNED_swap.
      apply (nary_division_not_undefined s64 cfun_it_s64_div
               (DIVMETHOD_SIGNED_body s64 op_div)); [now left|now apply Hswap].
    + unfold cfun_it_s64_divi, DIVMETHODINVERT_SIGNED. rewrite Hbad. discriminate.
  - destruct (fixarity_two_only argv) as [(a & b & ->)|Hbad].
    + unfold cfun_it_s64_remi. rewrite DIVMETHODINVERT_SIGNED_swap.
      apply (nary_division_not_undefined s64 cfun_it_s64_rem
               (DIVMETHOD_SIGNED_body s64 op_rem)); [right; now left|now apply Hswap].
    + unfold cfun_it_s64_remi, DIVMETHODINVERT_SIGNED. rewrite Hbad. discriminate.
  - apply (nary_division_not_undefined u64 _ (DIVMETHOD_body u64 op_div));
      [now left|assumption].
  - apply (nary_division_not_undefined u64 _ (DIVMETHOD_body u64 op_rem));
      [right; now left|assumption].
  - destruct (fixarity_two_only argv) as [(a & b & ->)|Hbad].
    + unfold cfun_it_u64_divi. rewrite DIVMETHODINVERT_swap.
      apply (nary_division_not_undefined u64 cfun_it_u64_div
               (DIVMETHOD_body u64 op_div)); [now left|now apply Hswap].
    + unfold cfun_it_u64_divi, DIVMETHODINVERT. rewrite Hbad. discriminate.
  - destruct (fixarity_two_only argv) as [(a & b & ->)|Hbad].
    + unfold cfun_it_u64_modi. rewrite DIVMETHODINVERT_swap.
      apply (nary_division_not_undefined u64 cfun_it_u64_mod
               (DIVMETHOD_body u64 op_rem)); [right; now left|now apply Hswap].
    + unfold cfun_it_u64_modi, DIVMETHODINVERT. rewrite Hbad. discriminate.
Qed.

Lemma X14_guarded_division_is_defined_witness :
  call_cfunction fn_s64_remi [janet_wrap_s64 (-1); janet_wrap_s64 INT64_MIN]
  <> Undefined.
Proof.
  apply (X14_guarded_division_is_defined fn_s64_remi
           [janet_wrap_s64 (-1); janet_wrap_s64 INT64_MIN]).
  - cbn [In]. tauto.
  - repeat constructor.
Defined.

(** ** Division, remainder and their composition *)

Lemma OPMETHOD_two `{HostScanner} (t : inttype) (oper : c_operator)
  (x y : Janet) (a b : Z) :
  janet_unwrap t x = Returns a ->
  janet_unwrap t y = Returns b ->
  OPMETHOD t oper [x; y]
  = (v <- c_binop t oper a b ;; Returns (janet_wrap_abstract t v)).
Proof.
  intros Ha Hb. unfold OPMETHOD, OPMETHOD_body.
  rewrite argc_of_at_least_two. cbn [bind arg nth_error tl for_each_arg].
  rewrite Ha. cbn [bind]. rewrite Hb. cbn [bind].
  destruct (c_binop t oper a b); reflexivity.
Qed.

Lemma DIVMETHOD_two `{HostScanner} (t : inttype) (oper : c_operator)
  (x y : Janet) (a b : Z) :
  janet_unwrap t x = Returns a ->
  janet_unwrap t y = Returns b ->
  b <> 0 ->
  DIVMETHOD t oper [x; y]
  = (v <- c_binop t oper a b ;; Returns (janet_wrap_abstract t v)).
Proof.
  intros Ha Hb Hnz. unfold DIVMETHOD, DIVMETHOD_body.
  rewrite argc_of_at_least_two. cbn [bind arg nth_error tl for_each_arg].
  rewrite Ha. cbn [bind]. rewrite Hb. cbn [bind].
  destruct (Z.eqb_spec b 0); [contradiction|].
  destruct (c_binop t oper a b); reflexivity.
Qed.

Lemma janet_unwrap_wrap_u64 `{HostScanner} (x : Z) :
  0 <= x <= 2 ^ 64 - 1 -> janet_unwrap_u64 (janet_wrap_u64 x) = Returns x.
Proof.
  intros Hx.
  change (janet_unwrap_u64 (janet_wrap_u64 x)) with (Returns (as_u64 (payload_of x))).
  assert (Hx' : 0 <= x < 2 ^ 64) by (rewrite two_64 in *; lia).
  rewrite (payload_of_small x Hx'). now rewrite (as_u64_small x Hx').
Qed.

(** X15: unsigned division and remainder compose to the dividend: for
    operands converting to [a] and to a nonzero [b], the [div] handler
    returns the quotient [a / b] and the [mod] handler the remainder
    [a mod b], which is below [b]; multiplying the quotient by [b] with the
    [mul] handler and adding the remainder with the [add] handler returns
    [a], without any wrap-around. *)
Theorem X15_unsigned_div_mod_compose `{HostScanner} (ja jb : Janet) (a b : Z) :
  janet_unwrap_u64 ja = Returns a ->
  janet_unwrap_u64 jb = Returns b ->
  b <> 0 ->
  cfun_it_u64_div [ja; jb] = Returns (janet_wrap_u64 (a / b))
  /\ cfun_it_u64_mod [ja; jb] = Returns (janet_wrap_u64 (a mod b))
  /\ 0 <= a mod b < b
  /\ cfun_it_u64_mul [janet_wrap_u64 (a / b); jb]
     = Returns (janet_wrap_u64 (a / b * b))
  /\ cfun_it_u64_add [janet_wrap_u64 (a / b * b); janet_wrap_u64 (a mod b)]
     = Returns (janet_wrap_u64 a).
Proof.
  intros Ha Hb Hnz.
  pose proof (janet_unwrap_u64_in_uint64 _ _ Ha) as Hra.
  pose proof (janet_unwrap_u64_in_uint64 _ _ Hb) as Hrb.
  assert (Hbpos : 0 < b) by lia.
  pose proof (Z.mod_pos_bound a b Hbpos) as Hr.
  pose proof (Z.div_pos a b ltac:(lia) Hbpos) as Hq.
  pose proof (Z.div_mod a b Hnz) as Hdm.
  assert (Hqb : 0 <= a / b * b <= a) by nia.
  assert (Hqa : a / b <= a) by nia.
  unfold cfun_it_u64_div, cfun_it_u64_mod, cfun_it_u64_mul, cfun_it_u64_add.
  rewrite !(DIVMETHOD_two u64 _ ja jb a b Ha Hb Hnz).
  rewrite (OPMETHOD_two u64 op_mul (janet_wrap_u64 (a / b)) jb (a / b) b)
    by (try apply janet_unwrap_wrap_u64; try assumption; lia).
  rewrite (OPMETHOD_two u64 op_add (janet_wrap_u64 (a / b * b))
             (janet_wrap_u64 (a mod b)) (a / b * b) (a mod b))
    by (apply janet_unwrap_wrap_u64; lia).
  cbn [c_binop checked]. unfold c_div, c_rem.
  destruct (Z.eqb_spec b 0); [contradiction|]. cbn [bind].
  rewrite (Z.mod_small (a / b * b)) by lia.
  assert (Hsum : a / b * b + a mod b = a)
    by (rewrite (Z.mul_comm (a / b) b); symmetry; exact Hdm).
  rewrite Hsum.
  rewrite (Z.mod_small a (2 ^ 64)) by lia.
  repeat split; lia.
Qed.

Lemma X15_unsigned_div_mod_compose_witness :
  cfun_it_u64_div [janet_wrap_u64 17; janet_wrap_u64 5]
  = Returns (janet_wrap_u64 (17 / 5)).
Proof.
  assert (Hnz : 5 <> 0) by lia.
  pose proof (X15_unsigned_div_mod_compose
                (janet_wrap_u64 17) (janet_wrap_u64 5) 17 5 eq_refl eq_refl Hnz)
    as (Hdiv & _).
  exact Hdiv.
Defined.

(** The quotient of a guarded signed division stays in the range. *)
Lemma quot_in_int64 (a b : Z) :
  - 2 ^ 63 <= a <= 2 ^ 63 - 1 -> b <> 0 -> ~ (a = INT64_MIN /\ b = -1) ->
  - 2 ^ 63 <= Z.quot a b <= 2 ^ 63 - 1.
Proof.
  intros Ha Hb Hmin. unfold INT64_MIN in Hmin.
  assert (Habs : Z.abs (Z.quot a b) <= Z.abs a).
  { rewrite <- Z.quot_abs by assumption.
    rewrite Z.quot_div_nonneg by lia.
    apply Z.div_le_upper_bound; [lia|]. nia. }
  destruct (Z.eq_dec (Z.quot a b) (2 ^ 63)) as [E|Hne]; [|lia].
  exfalso.
  assert (Ea : a = - 2 ^ 63) by lia.
  assert (Eb : Z.abs b = 1).
  { destruct (Z.eq_dec (Z.abs b) 1) as [|Hb1]; [assumption|exfalso].
    assert (Hlt : Z.abs a / Z.abs b < Z.abs a) by (apply Z.div_lt; lia).
    rewrite <- Z.quot_div_nonneg in Hlt by lia.
    rewrite Z.quot_abs in Hlt by assumption. lia. }
  assert (b = 1 \/ b = -1) as [-> | ->] by lia.
  - rewrite Z.quot_1_r in E. lia.
  - apply Hmin. now split.
Qed.

(** X16: guarded signed division and remainder compose to the dividend:
    for operands converting to [a] and to a nonzero [b], the pair
    [(INT64_MIN, -1)] apart, the [/] handler returns the truncated quotient
    and the [%] handler the remainder, which is smaller than [b] in
    magnitude and has the sign of [a] or is zero; multiplying the quotient
    by [b] and adding the remainder through the handlers returns [a],
    without overflow. *)
Theorem X16_signed_div_rem_compose `{HostScanner} (ja jb : Janet) (a b : Z) :
  janet_unwrap_s64 ja = Returns a ->
  janet_unwrap_s64 jb = Returns b ->
  b <> 0 ->
  ~ (a = INT64_MIN /\ b = -1) ->
  cfun_it_s64_div [ja; jb] = Returns (janet_wrap_s64 (Z.quot a b))
  /\ cfun_it_s64_rem [ja; jb] = Returns (janet_wrap_s64 (Z.rem a b))
  /\ Z.abs (Z.rem a b) < Z.abs b
  /\ 0 <= Z.rem a b * a
  /\ cfun_it_s64_mul [janet_wrap_s64 (Z.quot a b); jb]
     = Returns (janet_wrap_s64 (Z.quot a b * b))
  /\ cfun_it_s64_add [janet_wrap_s64 (Z.quot a b * b); janet_wrap_s64 (Z.rem a b)]
     = Returns (janet_wrap_s64 a).
Proof.
  intros Ha Hb Hnz Hmin.
  pose proof (janet_unwrap_s64_in_int64 _ _ Ha) as Hra.
  pose proof (janet_unwrap_s64_in_int64 _ _ Hb) as Hrb.
  pose proof (quot_in_int64 a b Hra Hnz Hmin) as Hq.
  pose proof (Z.quot_rem' a b) as Hqr.
  pose proof (Z.rem_bound_abs a b Hnz) as Hrabs.
  pose proof (Z.rem_sign_mul a b Hnz) as Hsign.
  assert (Hrle : Z.abs (Z.rem a b) <= Z.abs a).
  { rewrite <- Z.rem_abs by assumption. apply Z.rem_le; lia. }
  assert (Hr : - 2 ^ 63 <= Z.rem a b <= 2 ^ 63 - 1) by lia.
  assert (Hqb : - 2 ^ 63 <= Z.quot a b * b <= 2 ^ 63 - 1) by nia.
  unfold cfun_it_s64_div, cfun_it_s64_rem, cfun_it_s64_mul, cfun_it_s64_add.
  rewrite !(DIVMETHOD_SIGNED_two _ ja jb a Ha).
  rewrite !(DIVMETHOD_SIGNED_body_cases _ a b jb Hb).
  destruct (Z.eqb_spec b 0); [contradiction|].
  assert (Hguard : (b =? -1) && (a =? INT64_MIN) = false).
  { destruct (Z.eqb_spec b (-1)); destruct (Z.eqb_spec a INT64_MIN);
      try reflexivity. exfalso. apply Hmin. now split. }
  rewrite Hguard.
  rewrite !guarded_signed_division by tauto. cbn [bind].
  rewrite (OPMETHOD_two s64 op_mul (janet_wrap_s64 (Z.quot a b)) jb (Z.quot a b) b)
    by (try apply janet_unwrap_wrap_s64; assumption).
  rewrite (OPMETHOD_two s64 op_add (janet_wrap_s64 (Z.quot a b * b))
             (janet_wrap_s64 (Z.rem a b)) (Z.quot a b * b) (Z.rem a b))
    by (apply janet_unwrap_wrap_s64; assumption).
  cbn [c_binop checked].
  rewrite (proj2 (in_int64_iff (Z.quot a b * b)) Hqb).
  assert (Hsum : Z.quot a b * b + Z.rem a b = a)
    by (rewrite (Z.mul_comm (Z.quot a b) b); symmetry; exact Hqr).
  rewrite Hsum.
  rewrite (proj2 (in_int64_iff a) Hra). cbn [bind].
  repeat split; lia.
Qed.

Lemma X16_signed_div_rem_compose_witness :
  cfun_it_s64_rem [janet_wrap_s64 (-7); janet_wrap_s64 3]
  = Returns (janet_wrap_s64 (Z.rem (-7) 3)).
Proof.
  assert (Hnz : 3 <> 0) by lia.
  assert (Hmin : ~ (-7 = INT64_MIN /\ 3 = -1)) by (intros [_ E]; discriminate E).
  pose proof (X16_signed_div_rem_compose
                (janet_wrap_s64 (-7)) (janet_wrap_s64 3) (-7) 3
                eq_refl eq_refl Hnz Hmin)
    as (_ & Hrem & _).
  exact Hrem.
Defined.

(** ** [mod] against [%], and the comparisons *)

Lemma mod_body_is_rem_body `{HostScanner} (box : Z) (x : Janet) :
  0 <= box ->
  cfun_it_s64_mod_body box x = DIVMETHOD_SIGNED_body s64 op_rem box x
  /\ forall r, cfun_it_s64_mod_body box x = Returns r -> 0 <= r.
Proof.
  intros Hbox. unfold cfun_it_s64_mod_body, DIVMETHOD_SIGNED_body.
  cbn [janet_unwrap].
  destruct (janet_unwrap_s64 x) as [v| |]; cbn [bind];
    [|split; [reflexivity|discriminate]|split; [reflexivity|discriminate]].
  destruct (Z.eqb_spec v 0) as [|Hnz]; [split; [reflexivity|discriminate]|].
  assert (Hmin : ~ (box = INT64_MIN /\ v = -1))
    by (unfold INT64_MIN; intros [E _]; lia).
  assert (Hguard : (v =? -1) && (box =? INT64_MIN) = false).
  { destruct (Z.eqb_spec box INT64_MIN) as [E|_]; [|apply andb_false_r].
    unfold INT64_MIN in E. lia. }
  rewrite Hguard. cbn [c_binop].
  rewrite c_rem_s64_defined by assumption. cbn [bind].
  pose proof (Z.rem_nonneg box v Hnz Hbox) as Hr.
  unfold mod_adjust. destruct (Z.ltb_spec (Z.rem box v) 0); [lia|].
  split; [reflexivity|]. intros r E. injection E as <-. exact Hr.
Qed.

Lemma mod_loop_is_rem_loop `{HostScanner} (args : list Janet) :
  forall box, 0 <= box ->
  for_each_arg cfun_it_s64_mod_body box args
  = for_each_arg (DIVMETHOD_SIGNED_body s64 op_rem) box args.
Proof.
  induction args as [|x args IH]; intros box Hbox; cbn [for_each_arg].
  - reflexivity.
  - destruct (mod_body_is_rem_body box x Hbox) as [E Hnonneg].
    rewrite <- E.
    destruct (cfun_it_s64_mod_body box x) as [r| |]; cbn [bind];
      try reflexivity.
    apply IH. now apply Hnonneg.
Qed.

(** X17: on a non-negative first operand the signed [mod] handler is the
    signed [%] handler: for any operand list whose first operand converts
    to a value [a >= 0], the two handlers return, or fail with, the same
    outcome, whatever the other operands are and however many there are;
    the sign adjustment of [mod] only ever applies to a negative
    accumulator. *)
Theorem X17_mod_is_rem_on_nonnegative `{HostScanner} (a0 : Janet)
  (rest : list Janet) (a : Z) :
  janet_unwrap_s64 a0 = Returns a ->
  0 <= a ->
  cfun_it_s64_mod (a0 :: rest) = cfun_it_s64_rem (a0 :: rest).
Proof.
  intros Ha Hpos.
  unfold cfun_it_s64_mod, cfun_it_s64_rem, DIVMETHOD_SIGNED.
  destruct (janet_arity (argc_of (a0 :: rest)) 2 (-1)); cbn [bind];
    try reflexivity.
  cbn [arg nth_error tl bind janet_unwrap]. rewrite Ha. cbn [bind].
  now rewrite mod_loop_is_rem_loop.
Qed.

Lemma X17_mod_is_rem_on_nonnegative_witness :
  cfun_it_s64_mod [janet_wrap_s64 7; janet_wrap_s64 (-3); janet_wrap_s64 0]
  = cfun_it_s64_rem [janet_wrap_s64 7; janet_wrap_s64 (-3); janet_wrap_s64 0].
Proof.
  assert (Hpos : 0 <= 7) by lia.
  exact (X17_mod_is_rem_on_nonnegative (janet_wrap_s64 7)
           [janet_wrap_s64 (-3); janet_wrap_s64 0] 7 eq_refl Hpos).
Defined.

(** X18: the six comparison handlers of a type are consistent with one
    another: on operands that convert to [a] and [b], exactly one of [<],
    [=], [>] returns true; [<=] is "[<] or [=]", [>=] is "[>] or [=]", [!=]
    is the negation of [=]; [=] holds exactly when [a = b]; and [<] on
    [(a, b)] is [>] on [(b, a)]. *)
Theorem X18_comparisons_consistent `{HostScanner} (t : inttype)
  (ja jb : Janet) (a b : Z) :
  janet_unwrap t ja = Returns a ->
  janet_unwrap t jb = Returns b ->
  exists lt eq gt : bool,
    COMPMETHOD t cmp_lt [ja; jb] = Returns (JanetBoolean lt)
    /\ COMPMETHOD t cmp_eq [ja; jb] = Returns (JanetBoolean eq)
    /\ COMPMETHOD t cmp_gt [ja; jb] = Returns (JanetBoolean gt)
    /\ COMPMETHOD t cmp_le [ja; jb] = Returns (JanetBoolean (lt || eq))
    /\ COMPMETHOD t cmp_ge [ja; jb] = Returns (JanetBoolean (gt || eq))
    /\ COMPMETHOD t cmp_ne [ja; jb] = Returns (JanetBoolean (negb eq))
    /\ COMPMETHOD t cmp_gt [jb; ja] = Returns (JanetBoolean lt)
    /\ (eq = true <-> a = b)
    /\ ((lt = true /\ eq = false /\ gt = false)
        \/ (lt = false /\ eq = true /\ gt = false)
        \/ (lt = false /\ eq = false /\ gt = true)).
Proof.
  intros Ha Hb. exists (a <? b), (a =? b), (a >? b).
  rewrite !(COMPMETHOD_two t _ ja jb a b Ha Hb).
  rewrite (COMPMETHOD_two t _ jb ja b a Hb Ha).
  cbn [c_compare]. rewrite !Z.gtb_ltb, Z.geb_leb.
  destruct (Z.ltb_spec a b); destruct (Z.eqb_spec a b);
    destruct (Z.ltb_spec b a); destruct (Z.leb_spec a b);
    destruct (Z.leb_spec b a); try lia; cbn [orb negb];
    repeat split; try tauto; try lia; try discriminate.
Qed.

Lemma X18_comparisons_consistent_witness :
  exists lt eq gt : bool,
    COMPMETHOD u64 cmp_lt [janet_wrap_u64 5; janet_wrap_s64 (-1)]
    = Returns (JanetBoolean lt)
    /\ COMPMETHOD u64 cmp_eq [janet_wrap_u64 5; janet_wrap_s64 (-1)]
       = Returns (JanetBoolean eq)
    /\ COMPMETHOD u64 cmp_gt [janet_wrap_u64 5; janet_wrap_s64 (-1)]
       = Returns (JanetBoolean gt).
Proof.
  destruct (X18_comparisons_consistent u64 (janet_wrap_u64 5) (janet_wrap_s64 (-1))
              5 18446744073709551615 eq_refl eq_refl)
    as (lt & eq & gt & Hlt & Heq & Hgt & _).
  exists lt, eq, gt. now repeat split.
Defined.

(** ** The n-ary handlers that do not depend on the order of operands *)

Lemma fold_left_wrapped_add (vs : list Z) (v0 : Z) :
  fold_left (fun a b => (a + b) mod 2 ^ 64) vs v0 mod 2 ^ 64
  = (v0 + fold_right Z.add 0 vs) mod 2 ^ 64.
Proof.
  revert v0. induction vs as [|x vs IH]; intros v0; cbn [fold_left fold_right].
  - now rewrite Z.add_0_r.
  - rewrite IH, Zplus_mod_idemp_l. f_equal. lia.
Qed.

Lemma fold_left_wrapped_mul (vs : list Z) (v0 : Z) :
  fold_left (fun a b => (a * b) mod 2 ^ 64) vs v0 mod 2 ^ 64
  = (v0 * fold_right Z.mul 1 vs) mod 2 ^ 64.
Proof.
  revert v0. induction vs as [|x vs IH]; intros v0; cbn [fold_left fold_right].
  - now rewrite Z.mul_1_r.
  - rewrite IH, Zmult_mod_idemp_l. f_equal. lia.
Qed.

Lemma fold_left_as_fold_right (f : Z -> Z -> Z) (e : Z) :
  (forall a b c, f a (f b c) = f (f a b) c) ->
  (forall a, f a e = a) ->
  forall vs v0, fold_left f vs v0 = f v0 (fold_right f e vs).
Proof.
  intros Hassoc Hunit. induction vs as [|x vs IH]; intros v0;
    cbn [fold_left fold_right].
  - now rewrite Hunit.
  - now rewrite IH, Hassoc.
Qed.

Lemma fold_right_permutation (f : Z -> Z -> Z) (e : Z) (l l' : list Z) :
  (forall a b c, f a (f b c) = f (f a b) c) ->
  (forall a b, f a b = f b a) ->
  Permutation l l' -> fold_right f e l = fold_right f e l'.
Proof.
  intros Hassoc Hcomm Hperm.
  induction Hperm as [|x l l' _ IH|x y l|l l' l'' _ IH1 _ IH2];
    cbn [fold_right].
  - reflexivity.
  - now rewrite IH.
  - now rewrite !Hassoc, (Hcomm y x).
  - now rewrite IH1.
Qed.

Lemma folded_operation_laws (oper : c_operator) :
  (forall a b c, fst (folded_operation oper) a (fst (folded_operation oper) b c)
                 = fst (folded_operation oper) (fst (folded_operation oper) a b) c)
  /\ (forall a b, fst (folded_operation oper) a b
                  = fst (folded_operation oper) b a)
  /\ (forall a, fst (folded_operation oper) a (snd (folded_operation oper)) = a).
Proof.
  destruct oper; cbn [folded_operation fst snd];
    repeat split; intros;
    first [ lia
          | apply Z.land_assoc | apply Z.land_comm | apply Z.land_m1_r
          | apply Z.lor_assoc | apply Z.lor_comm | apply Z.lor_0_r
          | symmetry; apply Z.lxor_assoc | apply Z.lxor_comm | apply Z.lxor_0_r ].
Qed.

(** The loop of a handler whose native operator is total. *)
Lemma OPMETHOD_loop_total `{HostScanner} (t : inttype) (oper : c_operator)
  (g : Z -> Z -> Z) (args : list Janet) (vs : list Z) :
  (forall a b, c_binop t oper a b = Returns (g a b)) ->
  Forall2 (fun x v => janet_unwrap t x = Returns v) args vs ->
  forall box,
    for_each_arg (OPMETHOD_body t oper) box args = Returns (fold_left g vs box).
Proof.
  intros Hop Hall. induction Hall as [|x v args vs Hx _ IH]; intros box;
    cbn [for_each_arg fold_left].
  - reflexivity.
  - unfold OPMETHOD_body at 1. rewrite Hx. cbn [bind]. rewrite Hop. cbn [bind].
    apply IH.
Qed.

Lemma wrap_abstract_payload (t : inttype) (x y : Z) :
  x mod 2 ^ 64 = y mod 2 ^ 64 -> janet_wrap_abstract t x = janet_wrap_abstract t y.
Proof. intros E. unfold janet_wrap_abstract, payload_of. now rewrite E. Qed.

(** The result of a handler that folds a total operator. *)
Lemma OPMETHOD_fold_operands `{HostScanner} (t : inttype) (oper : c_operator)
  (argv : list Janet) (vs : list Z) :
  reorderable t oper = true ->
  (2 <= List.length argv)%nat ->
  Forall2 (fun x v => janet_unwrap t x = Returns v) argv vs ->
  OPMETHOD t oper argv
  = Returns (janet_wrap_abstract t (fold_operands oper vs)).
Proof.
  intros Hre Hlen Hall.
  destruct (folded_operation_laws oper) as (Hassoc & Hcomm & Hunit).
  destruct Hall as [|a0 v0 rest vs' Ha0 Hrest]; [cbn in Hlen; lia|].
  destruct rest as [|a1 rest]; [cbn in Hlen; lia|].
  unfold OPMETHOD. rewrite argc_of_at_least_two.
  cbn [bind arg nth_error tl]. rewrite Ha0. cbn [bind].
  unfold fold_operands. cbn [fold_right].
  destruct oper; try discriminate Hre; destruct t; try discriminate Hre.
  - rewrite (OPMETHOD_loop_total u64 op_add (fun a b => (a + b) mod 2 ^ 64)
               _ vs' (fun a b => eq_refl) Hrest).
    cbn [bind folded_operation fst snd]. f_equal.
    apply wrap_abstract_payload, fold_left_wrapped_add.
  - rewrite (OPMETHOD_loop_total u64 op_mul (fun a b => (a * b) mod 2 ^ 64)
               _ vs' (fun a b => eq_refl) Hrest).
    cbn [bind folded_operation fst snd]. f_equal.
    apply wrap_abstract_payload, fold_left_wrapped_mul.
  - rewrite (OPMETHOD_loop_total s64 op_and Z.land _ vs' (fun a b => eq_refl) Hrest).
    cbn [bind]. now rewrite (fold_left_as_fold_right _ _ Hassoc Hunit).
  - rewrite (OPMETHOD_loop_total u64 op_and Z.land _ vs' (fun a b => eq_refl) Hrest).
    cbn [bind]. now rewrite (fold_left_as_fold_right _ _ Hassoc Hunit).
  - rewrite (OPMETHOD_loop_total s64 op_or Z.lor _ vs' (fun a b => eq_refl) Hrest).
    cbn [bind]. now rewrite (fold_left_as_fold_right _ _ Hassoc Hunit).
  - rewrite (OPMETHOD_loop_total u64 op_or Z.lor _ vs' (fun a b => eq_refl) Hrest).
    cbn [bind]. now rewrite (fold_left_as_fold_right _ _ Hassoc Hunit).
  - rewrite (OPMETHOD_loop_total s64 op_xor Z.lxor _ vs' (fun a b => eq_refl) Hrest).
    cbn [bind]. now rewrite (fold_left_as_fold_right _ _ Hassoc Hunit).
  - rewrite (OPMETHOD_loop_total u64 op_xor Z.lxor _ vs' (fun a b => eq_refl) Hrest).
    cbn [bind]. now rewrite (fold_left_as_fold_right _ _ Hassoc Hunit).
Qed.

(** X19: the n-ary handlers for the bitwise operators, on both types, and
    for unsigned addition and multiplication, return on every list of at
    least two operands that convert: the result is the box of the folded
    operation over all operand values (their sum or product modulo 2^64 for
    the unsigned type, their bitwise combination otherwise), and so it is
    the same for every reordering of the operands. *)
Theorem X19_nary_result_ignores_order `{HostScanner} (t : inttype)
  (oper : c_operator) (argv : list Janet) (vs : list Z) :
  reorderable t oper = true ->
  (2 <= List.length argv)%nat ->
  Forall2 (fun x v => janet_unwrap t x = Returns v) argv vs ->
  OPMETHOD t oper argv
  = Returns (janet_wrap_abstract t (fold_operands oper vs))
  /\ forall argv', Permutation argv argv' ->
       OPMETHOD t oper argv' = OPMETHOD t oper argv.
Proof.
  intros Hre Hlen Hall.
  split; [now apply OPMETHOD_fold_operands|].
  intros argv' Hperm.
  destruct (Permutation_Forall2 Hperm Hall) as (vs' & Hvs & Hall').
  rewrite (OPMETHOD_fold_operands t oper argv vs Hre Hlen Hall).
  rewrite (OPMETHOD_fold_operands t oper argv' vs' Hre); [|
    now rewrite <- (Permutation_length Hperm) | exact Hall'].
  destruct (folded_operation_laws oper) as (Hassoc & Hcomm & _).
  unfold fold_operands.
  now rewrite (fold_right_permutation _ _ vs vs' Hassoc Hcomm Hvs).
Qed.

Lemma X19_nary_result_ignores_order_witness :
  cfun_it_u64_add [janet_wrap_u64 18446744073709551615; janet_wrap_u64 2;
                   janet_wrap_u64 3]
  = Returns (janet_wrap_u64 4).
Proof.
  assert (Hlen : (2 <= List.length [janet_wrap_u64 18446744073709551615;
                                    janet_wrap_u64 2; janet_wrap_u64 3])%nat)
    by (cbn [List.length]; lia).
  assert (Hall : Forall2 (fun x v => janet_unwrap u64 x = Returns v)
                   [janet_wrap_u64 18446744073709551615; janet_wrap_u64 2;
                    janet_wrap_u64 3]
                   [18446744073709551615; 2; 3])
    by (repeat constructor).
  exact (proj1 (X19_nary_result_ignores_order u64 op_add _ _ eq_refl Hlen Hall)).
Defined.

(** ** Dispatch tables *)

Lemma janet_getmethod_none (method : string) (methods : list JanetMethod) :
  janet_getmethod method methods = None <-> ~ In method (map fst methods).
Proof.
  induction methods as [|[name cfun] rest IH]; cbn [janet_getmethod map fst In].
  - tauto.
  - destruct (String.eqb_spec method name) as [->|Hne].
    + split; [discriminate|]. intros Hn. elim Hn. now left.
    + rewrite IH. split.
      * intros Hn [E|Hin]; [now elim Hne|now elim Hn].
      * intros Hn Hin. apply Hn. now right.
Qed.

Lemma janet_getmethod_some (method : string) (methods : list JanetMethod)
  (v : Janet) :
  janet_getmethod method methods = Some v ->
  exists cfun, v = JanetCFunctionValue cfun /\ In (method, cfun) methods.
Proof.
  induction methods as [|[name cfun] rest IH]; cbn [janet_getmethod In].
  - discriminate.
  - destruct (String.eqb_spec method name) as [->|Hne].
    + intros E. injection E as <-. exists cfun. split; [reflexivity|now left].
    + intros E. destruct (IH E) as (f & Hv & Hin). exists f.
      split; [assumption|now right].
Qed.

(** X20: member lookup never fails and the two types answer to the same
    keys: a key that is not a keyword is declined by both [it_s64_get] and
    [it_u64_get]; a keyword is declined by one exactly when it is declined
    by the other, which is when it is none of the operator names of the
    table; and every answer is a function value bound to that name in the
    table of the type. *)
Theorem X20_get_declines_or_finds (key : Janet) :
  ((forall k, key <> JanetKeyword k) ->
   it_s64_get key = None /\ it_u64_get key = None)
  /\ (it_s64_get key = None <-> it_u64_get key = None)
  /\ (forall k, key = JanetKeyword k ->
      (it_s64_get key = None <-> ~ In k (map fst it_s64_methods)))
  /\ (forall v, it_s64_get key = Some v ->
      exists k cfun, key = JanetKeyword k /\ v = JanetCFunctionValue cfun
                     /\ In (k, cfun) it_s64_methods)
  /\ (forall v, it_u64_get key = Some v ->
      exists k cfun, key = JanetKeyword k /\ v = JanetCFunctionValue cfun
                     /\ In (k, cfun) it_u64_methods).
Proof.
  assert (Hnames : map fst it_s64_methods = map fst it_u64_methods) by reflexivity.
  split; [|split; [|split; [|split]]].
  - intros Hk. destruct key; try (split; reflexivity). now elim (Hk s).
  - destruct key; cbn [it_s64_get it_u64_get];
      try (split; intros _; reflexivity).
    rewrite !janet_getmethod_none, Hnames. reflexivity.
  - intros k ->. cbn [it_s64_get]. apply janet_getmethod_none.
  - intros v Hv. destruct key; try discriminate Hv. cbn [it_s64_get] in Hv.
    destruct (janet_getmethod_some _ _ _ Hv) as (f & -> & Hin). eauto.
  - intros v Hv. destruct key; try discriminate Hv. cbn [it_u64_get] in Hv.
    destruct (janet_getmethod_some _ _ _ Hv) as (f & -> & Hin). eauto.
Qed.

Lemma bind_returns {A B : Type} (c : outcome A) (k : A -> outcome B) (r : B) :
  bind c k = Returns r -> exists a, c = Returns a /\ k a = Returns r.
Proof.
  destruct c as [a| |]; cbn [bind]; try discriminate. eauto.
Qed.

Ltac returns_inv H :=
  repeat match type of H with
         | bind _ _ = Returns _ =>
             let a := fresh "a" in
             apply bind_returns in H; destruct H as (a & _ & H)
         | (if ?c then _ else _) = Returns _ => destruct c
         | Panics _ = Returns _ => discriminate H
         | Undefined = Returns _ => discriminate H
         end.

Lemma wrapped_box (t : inttype) (x : Z) :
  exists p, 0 <= p < 2 ^ 64
            /\ janet_wrap_abstract t x = JanetAbstract (type_id_of t) p.
Proof. exists (payload_of x). split; [apply payload_of_range|reflexivity]. Qed.

Lemma arithmetic_handlers_return_boxes `{HostScanner} (t : inttype)
  (oper : c_operator) (argv : list Janet) (r : Janet) :
  (OPMETHOD t oper argv = Returns r
   \/ OPMETHODINVERT t oper argv = Returns r
   \/ DIVMETHOD t oper argv = Returns r
   \/ DIVMETHODINVERT t oper argv = Returns r
   \/ DIVMETHOD_SIGNED t oper argv = Returns r
   \/ DIVMETHODINVERT_SIGNED t oper argv = Returns r) ->
  exists p, 0 <= p < 2 ^ 64 /\ r = JanetAbstract (type_id_of t) p.
Proof.
  unfold OPMETHOD, OPMETHODINVERT, DIVMETHOD, DIVMETHODINVERT,
    DIVMETHOD_SIGNED, DIVMETHODINVERT_SIGNED.
  intros [E|[E|[E|[E|[E|E]]]]]; returns_inv E; injection E as <-;
    apply wrapped_box.
Qed.

Lemma mod_handlers_return_boxes `{HostScanner} (argv : list Janet) (r : Janet) :
  (cfun_it_s64_mod argv = Returns r \/ cfun_it_s64_modi argv = Returns r) ->
  exists p, 0 <= p < 2 ^ 64 /\ r = JanetAbstract core_s64 p.
Proof.
  unfold cfun_it_s64_mod, cfun_it_s64_modi.
  intros [E|E]; returns_inv E; injection E as <-; apply (wrapped_box s64).
Qed.

Lemma comparison_handlers_return_booleans `{HostScanner} (t : inttype)
  (oper : c_comparison) (argv : list Janet) (r : Janet) :
  COMPMETHOD t oper argv = Returns r -> exists b, r = JanetBoolean b.
Proof.
  unfold COMPMETHOD. intros E. returns_inv E. injection E as <-. eauto.
Qed.

(** X21: each type is closed under its operators: whatever function value
    member lookup on a type returns, and whatever operands that function
    is called with, a call that returns yields either a box of that same
    type, holding a payload in [0, 2^64), or a boolean. *)
Theorem X21_operators_stay_in_type `{HostScanner} (t : inttype) (key : Janet)
  (f : JanetCFunction) (argv : list Janet) (r : Janet) :
  match t with s64 => it_s64_get key | u64 => it_u64_get key end
  = Some (JanetCFunctionValue f) ->
  call_cfunction f argv = Returns r ->
  (exists p, 0 <= p < 2 ^ 64 /\ r = JanetAbstract (type_id_of t) p)
  \/ (exists b, r = JanetBoolean b).
Proof.
  intros Hget Hcall.
  assert (Hin : exists k, In (k, f) match t with
                                    | s64 => it_s64_methods
                                    | u64 => it_u64_methods
                                    end).
  { destruct t; destruct key; try discriminate Hget;
      cbn [it_s64_get it_u64_get] in Hget;
      destruct (janet_getmethod_some _ _ _ Hget) as (g & Eg & Hg);
      injection Eg as <-; eauto. }
  destruct Hin as [k Hin].
  destruct t; cbn [it_s64_methods it_u64_methods In] in Hin;
    repeat (destruct Hin as [E|Hin]; [injection E as _ <-|]);
    try contradiction; cbn [call_cfunction] in Hcall;
    first [ right; now apply comparison_handlers_return_booleans in Hcall
          | left; apply (mod_handlers_return_boxes argv r); tauto
          | left; eapply arithmetic_handlers_return_boxes; eauto 7 ].
Qed.

Lemma X21_operators_stay_in_type_witness :
  (exists p, 0 <= p < 2 ^ 64
             /\ janet_wrap_s64 6 = JanetAbstract (type_id_of s64) p)
  \/ (exists b, janet_wrap_s64 6 = JanetBoolean b).
Proof.
  exact (X21_operators_stay_in_type s64 (JanetKeyword "mod") fn_s64_mod
           [janet_wrap_s64 (-7); janet_wrap_s64 3] (janet_wrap_s64 6)
           eq_refl eq_refl).
Defined.

(** ** String conversion *)

Lemma to_int_not_nil (x : Z) :
  Z.to_int x <> Decimal.Pos Decimal.Nil /\ Z.to_int x <> Decimal.Neg Decimal.Nil.
Proof.
  destruct x as [|p|p]; cbn [Z.to_int]; split; try discriminate;
    intros E; injection E as E; now apply (DecimalPos.Unsigned.to_uint_nonnil p).
Qed.

Lemma string_of_int_inj (x y : Z) :
  NilZero.string_of_int (Z.to_int x) = NilZero.string_of_int (Z.to_int y) ->
  x = y.
Proof.
  intros E. apply (f_equal NilZero.int_of_string) in E.
  destruct (to_int_not_nil x) as [Hx1 Hx2].
  destruct (to_int_not_nil y) as [Hy1 Hy2].
  rewrite !NilZero.isi in E by assumption.
  injection E as E. now apply DecimalZ.to_int_inj.
Qed.

Lemma string_of_uint_length (d : Decimal.uint) :
  String.length (NilEmpty.string_of_uint d) = Decimal.nb_digits d.
Proof.
  induction d; cbn [NilEmpty.string_of_uint Decimal.nb_digits String.length];
    congruence.
Qed.

Lemma of_uint_acc_lower (d : Decimal.uint) :
  forall acc : positive,
    Zpos acc * 10 ^ Z.of_nat (Decimal.nb_digits d) <= Zpos (Pos.of_uint_acc d acc).
Proof.
  induction d; intros acc;
    cbn [Pos.of_uint_acc Decimal.nb_digits];
    try (rewrite Z.mul_1_r; reflexivity);
    try (rewrite Nat2Z.inj_succ, Z.pow_succ_r by lia;
         eapply Z.le_trans; [|apply IHd];
         assert (0 < 10 ^ Z.of_nat (Decimal.nb_digits d))
           by (apply Z.pow_pos_nonneg; lia);
         nia).
Qed.

(** A positive number is at least the power of ten that the number of its
    decimal digits gives. *)
Lemma to_uint_digits_lower (p : positive) :
  10 ^ (Z.of_nat (Decimal.nb_digits (Pos.to_uint p)) - 1) <= Zpos p.
Proof.
  pose proof (DecimalPos.Unsigned.of_to p) as Hof.
  pose proof (DecimalPos.Unsigned.to_of (Pos.to_uint p)) as Hnorm.
  rewrite Hof in Hnorm. cbn [N.to_uint] in Hnorm.
  pose proof (DecimalPos.Unsigned.to_uint_nonzero p) as Hnz.
  assert (Hhead : forall l, Pos.to_uint p <> Decimal.D0 l).
  { intros l E. rewrite E in Hnorm. unfold Decimal.unorm in Hnorm.
    destruct (Decimal.nzhead (Decimal.D0 l)) eqn:Hh; try discriminate Hnorm.
    - apply Hnz. rewrite E. now symmetry.
    - exact (DecimalFacts.nzhead_nonzero _ _ Hh). }
  assert (Hacc : forall l k, Pos.of_uint_acc l k = p ->
                 10 ^ Z.of_nat (Decimal.nb_digits l) <= Zpos p).
  { intros l k <-. eapply Z.le_trans; [|apply of_uint_acc_lower].
    assert (0 < 10 ^ Z.of_nat (Decimal.nb_digits l))
      by (apply Z.pow_pos_nonneg; lia).
    nia. }
  destruct (Pos.to_uint p) as [|l|l|l|l|l|l|l|l|l|l] eqn:Hd;
    cbn [Decimal.nb_digits];
    try (rewrite Nat2Z.inj_succ;
         replace (Z.succ (Z.of_nat (Decimal.nb_digits l)) - 1)
           with (Z.of_nat (Decimal.nb_digits l)) by lia;
         cbn [Pos.of_uint] in Hof; injection Hof as Hof;
         now apply (Hacc l _ Hof)).
  - cbn. lia.
  - now elim (Hhead l).
Qed.

Lemma digits_upper (p : positive) (k : nat) :
  Zpos p < 10 ^ Z.of_nat k ->
  (Decimal.nb_digits (Pos.to_uint p) <= k)%nat.
Proof.
  intros Hlt. pose proof (to_uint_digits_lower p) as Hlow.
  destruct (Nat.le_gt_cases (Decimal.nb_digits (Pos.to_uint p)) k) as [|Hgt];
    [assumption|exfalso].
  assert (Hpow : 10 ^ Z.of_nat k
                 <= 10 ^ (Z.of_nat (Decimal.nb_digits (Pos.to_uint p)) - 1))
    by (apply Z.pow_le_mono_r; lia).
  lia.
Qed.

Lemma string_of_to_int_length (x : Z) (k : nat) :
  (1 <= k)%nat ->
  - 10 ^ Z.of_nat k < x < 10 ^ Z.of_nat k ->
  (String.length (NilZero.string_of_int (Z.to_int x))
   <= k + (if (x <? 0)%Z then 1 else 0))%nat.
Proof.
  intros Hk Hx.
  assert (Hu : forall p, Zpos p < 10 ^ Z.of_nat k ->
               (String.length (NilZero.string_of_uint (Pos.to_uint p)) <= k)%nat).
  { intros p Hp. pose proof (digits_upper p k Hp) as Hd.
    unfold NilZero.string_of_uint. revert Hd.
    destruct (Pos.to_uint p) eqn:E; intros Hd;
      [now elim (DecimalPos.Unsigned.to_uint_nonnil p)|..];
      cbv iota; rewrite string_of_uint_length; exact Hd. }
  destruct x as [|p|p]; cbn [Z.to_int NilZero.string_of_int Z.ltb Z.compare].
  - cbn. lia.
  - specialize (Hu p ltac:(lia)). lia.
  - cbn [String.length]. specialize (Hu p ltac:(lia)). lia.
Qed.

(** X22: the string conversions fit their buffer and lose nothing: the
    text written for any payload has at most 20 characters, so that with
    its terminator it fits the 32 bytes of [str]; and two payloads are
    written as the same text by [it_s64_tostring], or by [it_u64_tostring],
    only if they hold the same 64 bits. *)
Theorem X22_tostring_bounded_and_injective (p q : Z) :
  (String.length (it_s64_tostring p) <= 20)%nat
  /\ (String.length (it_u64_tostring p) <= 20)%nat
  /\ (it_s64_tostring p = it_s64_tostring q -> p mod 2 ^ 64 = q mod 2 ^ 64)
  /\ (it_u64_tostring p = it_u64_tostring q -> p mod 2 ^ 64 = q mod 2 ^ 64).
Proof.
  unfold it_s64_tostring, it_u64_tostring.
  pose proof (as_s64_range p) as Hs. pose proof (as_u64_range p) as Hu.
  rewrite two_63 in Hs. rewrite two_64 in Hu.
  split; [|split; [|split]].
  - pose proof (string_of_to_int_length (as_s64 p) 19 ltac:(lia)) as Hlen.
    change (10 ^ Z.of_nat 19) with 10000000000000000000 in Hlen.
    specialize (Hlen ltac:(lia)).
    destruct (as_s64 p <? 0); lia.
  - pose proof (string_of_to_int_length (as_u64 p) 20 ltac:(lia)) as Hlen.
    change (10 ^ Z.of_nat 20) with 100000000000000000000 in Hlen.
    specialize (Hlen ltac:(lia)).
    destruct (Z.ltb_spec (as_u64 p) 0); lia.
  - intros E. apply as_s64_eq_iff. now apply string_of_int_inj.
  - intros E. now apply string_of_int_inj.
Qed.

(** ** Unsigned subtraction, shifts and repeated division *)

(** X23: unsigned subtraction wraps and is undone by addition: for
    operands converting to [a] and [b], the [sub] handler returns [a - b]
    when [b <= a] and [a - b + 2^64] otherwise, the reverse entry called
    with [(b, a)] returns the same, and adding [b] to the difference with
    the [add] handler returns [a]. *)
Theorem X23_unsigned_sub_wraps_and_add_undoes `{HostScanner}
  (ja jb : Janet) (a b : Z) :
  janet_unwrap_u64 ja = Returns a ->
  janet_unwrap_u64 jb = Returns b ->
  cfun_it_u64_sub [ja; jb]
  = Returns (janet_wrap_u64 (if b <=? a then a - b else a - b + 2 ^ 64))
  /\ cfun_it_u64_subi [jb; ja] = cfun_it_u64_sub [ja; jb]
  /\ cfun_it_u64_add
       [janet_wrap_u64 (if b <=? a then a - b else a - b + 2 ^ 64); jb]
     = Returns (janet_wrap_u64 a).
Proof.
  intros Ha Hb.
  pose proof (janet_unwrap_u64_in_uint64 _ _ Ha) as Hra.
  pose proof (janet_unwrap_u64_in_uint64 _ _ Hb) as Hrb.
  set (d := if b <=? a then a - b else a - b + 2 ^ 64).
  assert (Hd : 0 <= d <= 2 ^ 64 - 1)
    by (unfold d; destruct (Z.leb_spec b a); rewrite two_64 in *; lia).
  assert (Hmod : (a - b) mod 2 ^ 64 = d).
  { unfold d. destruct (Z.leb_spec b a).
    - apply Z.mod_small. rewrite two_64 in *. lia.
    - rewrite <- (Z.mod_add (a - b) 1 (2 ^ 64)) by (rewrite two_64; lia).
      rewrite Z.mul_1_l. apply Z.mod_small. rewrite two_64 in *. lia. }
  unfold cfun_it_u64_sub, cfun_it_u64_subi, cfun_it_u64_add.
  rewrite OPMETHODINVERT_swap.
  rewrite (OPMETHOD_two u64 op_sub ja jb a b Ha Hb).
  rewrite (OPMETHOD_two u64 op_add (janet_wrap_u64 d) jb d b)
    by (try apply janet_unwrap_wrap_u64; assumption).
  cbn [c_binop checked bind]. rewrite Hmod.
  split; [reflexivity|]. split; [reflexivity|].
  f_equal. apply (wrap_abstract_payload u64). rewrite Zmod_mod.
  rewrite <- Hmod, Zplus_mod_idemp_l. f_equal. lia.
Qed.

Lemma X23_unsigned_sub_wraps_and_add_undoes_witness :
  cfun_it_u64_sub [janet_wrap_u64 3; janet_wrap_u64 5]
  = Returns (janet_wrap_u64 18446744073709551614).
Proof.
  exact (proj1 (X23_unsigned_sub_wraps_and_add_undoes
                  (janet_wrap_u64 3) (janet_wrap_u64 5) 3 5 eq_refl eq_refl)).
Defined.

(** X24: unsigned shifts by a count below 64: for operands converting to
    [a] and to a count [k < 64], the left shift returns [a * 2^k] modulo
    2^64 and the right shift returns [a / 2^k]; shifting left and then
    right by [k] clears the top [k] bits, returning [a] modulo 2^(64 - k). *)
Theorem X24_unsigned_shifts `{HostScanner} (ja jk : Janet) (a k : Z) :
  janet_unwrap_u64 ja = Returns a ->
  janet_unwrap_u64 jk = Returns k ->
  k < 64 ->
  cfun_it_u64_lshift [ja; jk] = Returns (janet_wrap_u64 (a * 2 ^ k))
  /\ cfun_it_u64_rshift [ja; jk] = Returns (janet_wrap_u64 (a / 2 ^ k))
  /\ cfun_it_u64_rshift [janet_wrap_u64 (a * 2 ^ k); jk]
     = Returns (janet_wrap_u64 (a mod 2 ^ (64 - k))).
Proof.
  intros Ha Hk Hlt.
  pose proof (janet_unwrap_u64_in_uint64 _ _ Ha) as Hra.
  pose proof (janet_unwrap_u64_in_uint64 _ _ Hk) as Hrk.
  assert (Hcount : c_shift_count_ok k = true).
  { unfold c_shift_count_ok. apply andb_true_iff.
    rewrite Z.leb_le, Z.ltb_lt. lia. }
  assert (Hpow : 0 < 2 ^ k) by (apply Z.pow_pos_nonneg; lia).
  assert (Hsplit : 2 ^ 64 = 2 ^ (64 - k) * 2 ^ k).
  { rewrite <- Z.pow_add_r by lia. f_equal. lia. }
  assert (Hshifted : janet_unwrap_u64 (janet_wrap_u64 (a * 2 ^ k))
                     = Returns ((a * 2 ^ k) mod 2 ^ 64)).
  { change (janet_unwrap_u64 (janet_wrap_u64 (a * 2 ^ k)))
      with (Returns (as_u64 (payload_of (a * 2 ^ k)))).
    now rewrite as_u64_payload_of. }
  unfold cfun_it_u64_lshift, cfun_it_u64_rshift.
  rewrite (OPMETHOD_two u64 op_lshift ja jk a k Ha Hk).
  rewrite (OPMETHOD_two u64 op_rshift ja jk a k Ha Hk).
  rewrite (OPMETHOD_two u64 op_rshift (janet_wrap_u64 (a * 2 ^ k)) jk
             ((a * 2 ^ k) mod 2 ^ 64) k Hshifted Hk).
  cbn [c_binop]. unfold c_lshift, c_rshift. rewrite Hcount.
  cbn [checked bind].
  rewrite Z.shiftl_mul_pow2, !Z.shiftr_div_pow2 by lia.
  split; [|split].
  - f_equal. apply (wrap_abstract_payload u64). apply Zmod_mod.
  - reflexivity.
  - f_equal. apply (wrap_abstract_payload u64). f_equal.
    rewrite Hsplit at 1. rewrite Zmult_mod_distr_r.
    apply Z.div_mul. lia.
Qed.

Lemma X24_unsigned_shifts_witness :
  cfun_it_u64_lshift [janet_wrap_u64 18446744073709551615; janet_wrap_u64 4]
  = Returns (janet_wrap_u64 18446744073709551600).
Proof.
  assert (Hlt : 4 < 64) by lia.
  exact (proj1 (X24_unsigned_shifts
                  (janet_wrap_u64 18446744073709551615) (janet_wrap_u64 4)
                  18446744073709551615 4 eq_refl eq_refl Hlt)).
Defined.

Lemma unsigned_division_loop `{HostScanner} (args : list Janet) (vs : list Z) :
  Forall2 (fun x v => janet_unwrap u64 x = Returns v) args vs ->
  Forall (fun v => v <> 0) vs ->
  forall box,
    for_each_arg (DIVMETHOD_body u64 op_div) box args
    = Returns (box / fold_right Z.mul 1 vs)
    /\ 0 < fold_right Z.mul 1 vs.
Proof.
  intros Hall. induction Hall as [|x v args vs Hx _ IH]; intros Hnz box;
    cbn [for_each_arg fold_right].
  - rewrite Z.div_1_r. split; [reflexivity|lia].
  - inversion Hnz as [|? ? Hv Hrest]; subst.
    pose proof (janet_unwrap_u64_in_uint64 _ _ Hx) as Hrange.
    destruct (IH Hrest (box / v)) as [Hloop Hpos].
    unfold DIVMETHOD_body at 1. rewrite Hx. cbn [bind].
    destruct (Z.eqb_spec v 0); [contradiction|].
    cbn [c_binop]. unfold c_div.
    destruct (Z.eqb_spec v 0); [contradiction|]. cbn [bind].
    rewrite Hloop. split; [|nia].
    now rewrite Z.div_div by lia.
Qed.

(** X25: dividing by several operands in turn is dividing by their
    product: for a first operand converting to [a] and further operands
    converting to nonzero values, the unsigned n-ary [div] handler returns
    [a] divided by the product of those values. *)
Theorem X25_unsigned_division_by_product `{HostScanner} (a0 a1 : Janet)
  (rest : list Janet) (a : Z) (vs : list Z) :
  janet_unwrap_u64 a0 = Returns a ->
  Forall2 (fun x v => janet_unwrap u64 x = Returns v) (a1 :: rest) vs ->
  Forall (fun v => v <> 0) vs ->
  cfun_it_u64_div (a0 :: a1 :: rest)
  = Returns (janet_wrap_u64 (a / fold_right Z.mul 1 vs)).
Proof.
  intros Ha Hall Hnz.
  unfold cfun_it_u64_div, DIVMETHOD. rewrite argc_of_at_least_two.
  cbn [bind arg nth_error tl janet_unwrap]. rewrite Ha. cbn [bind].
  destruct (unsigned_division_loop (a1 :: rest) vs Hall Hnz a) as [-> _].
  reflexivity.
Qed.

Lemma X25_unsigned_division_by_product_witness :
  cfun_it_u64_div [janet_wrap_u64 100; janet_wrap_u64 3; janet_wrap_u64 4]
  = Returns (janet_wrap_u64 8).
Proof.
  assert (Hall : Forall2 (fun x v => janet_unwrap u64 x = Returns v)
                   [janet_wrap_u64 3; janet_wrap_u64 4] [3; 4])
    by (repeat constructor).
  assert (Hnz : Forall (fun v => v <> 0) [3; 4])
    by (repeat constructor; lia).
  exact (X25_unsigned_division_by_product
           (janet_wrap_u64 100) (janet_wrap_u64 3) [janet_wrap_u64 4] 100 [3; 4]
           eq_refl Hall Hnz).
Defined.
